(** * In-memory bounded queue with producer, consumer and SSE fan-out

    A shallow embedding of [examples/communication/queues/in_memory_queue.js]:
    the [Queue] class, the process-wide variables ([queue], [produced],
    [consumed], [running], [consumePollMs], [subscribers]), the [sseSend]
    fan-out, the HTTP handlers ([/events], [/control], [/enqueue]) and the
    [consume] loop with its timers.  The plain SSE server of
    [examples/communication/sse/sse_server.js] is embedded in module
    [SseServer].

    JavaScript runs every callback to completion on one thread, so each
    callback (an HTTP request, a timer firing, a connection's close event) is
    one atomic transition of a state record. *)

From Stdlib Require Import ZArith Lia Bool Ascii String.
From stdpp Require Import base option list gmap strings sorting.

Local Open Scope Z_scope.

(** ** Work items and the [Queue] class *)

(** The object literal [{ id: ++produced, ts: Date.now() }]. *)
Record Job := mkJob { job_id : Z; job_ts : Z }.

Module Queue.

(** [this.items] and [this.maxSize]. *)
Record t := mk { items : list Job; maxSize : Z }.

(** [constructor(maxSize)]: [this.items = []]. *)
Definition new (maxSize : Z) : t := mk [] maxSize.

(** [size() { return this.items.length; }] *)
Definition size (q : t) : Z := Z.of_nat (length (items q)).

(** [push(item)]: refuses when [this.items.length >= this.maxSize],
    otherwise appends at the end of the array.  The result pairs the
    returned boolean with the queue after the call. *)
Definition push (q : t) (item : Job) : bool * t :=
  if size q >=? maxSize q then (false, q)
  else (true, mk (items q ++ [item]) (maxSize q)).

(** [shift() { return this.items.shift(); }]: [Array.prototype.shift]
    removes and returns the first element, [undefined] ([None]) on an
    empty array. *)
Definition shift (q : t) : option Job * t :=
  match items q with
  | [] => (None, q)
  | j :: rest => (Some j, mk rest (maxSize q))
  end.

(** A call made on the queue by its clients. *)
Inductive op := Push (item : Job) | Shift.

(** What one call returns. *)
Inductive ret := RPush (ok : bool) | RShift (r : option Job).

Definition call (q : t) (o : op) : ret * t :=
  match o with
  | Push item => let '(b, q') := push q item in (RPush b, q')
  | Shift => let '(r, q') := shift q in (RShift r, q')
  end.

(** Runs a sequence of calls, collecting the returned values in order. *)
Fixpoint calls (q : t) (os : list op) : list ret * t :=
  match os with
  | [] => ([], q)
  | o :: os' =>
      let '(r, q1) := call q o in
      let '(rs, q2) := calls q1 os' in
      (r :: rs, q2)
  end.

(** The items the queue accepted, in call order. *)
Fixpoint accepted (os : list op) (rs : list ret) : list Job :=
  match os, rs with
  | Push item :: os', RPush true :: rs' => item :: accepted os' rs'
  | _ :: os', _ :: rs' => accepted os' rs'
  | _, _ => []
  end.

(** The items handed out by [shift], in call order. *)
Fixpoint dequeued (rs : list ret) : list Job :=
  match rs with
  | [] => []
  | RShift (Some j) :: rs' => j :: dequeued rs'
  | _ :: rs' => dequeued rs'
  end.

Definition pushes (xs : list Job) : list op := map Push xs.

End Queue.


(** ** JavaScript numbers and values

    The numbers that reach this program are request parameters and counters.
    The model keeps the integers, the two infinities and [NaN]; these are the
    values on which [Math.max], [<] and [Number] are specified below as
    ECMAScript defines them. *)

Inductive jsnum := NaN | Num (z : Z) | PosInf | NegInf.

(** The relational operator [a < b] on numbers: false when either side is
    [NaN]. *)
Definition js_lt (a b : jsnum) : bool :=
  match a, b with
  | NaN, _ | _, NaN => false
  | Num x, Num y => x <? y
  | NegInf, NegInf => false
  | NegInf, _ => true
  | _, PosInf => match a with PosInf => false | _ => true end
  | _, _ => false
  end.

(** [a >= b] on numbers: false when either side is [NaN]. *)
Definition js_ge (a b : jsnum) : bool :=
  match a, b with
  | NaN, _ | _, NaN => false
  | _, _ => negb (js_lt a b)
  end.

(** [Math.max(a, b)]: [NaN] as soon as one argument is [NaN]. *)
Definition Math_max (a b : jsnum) : jsnum :=
  match a, b with
  | NaN, _ | _, NaN => NaN
  | _, _ => if js_lt a b then b else a
  end.

(** The primitive values a query parameter or a JSON field can hold. *)
Inductive jsval :=
  | VUndefined | VNull | VBool (b : bool) | VNum (n : jsnum) | VStr (s : string).

(** ToBoolean, as used by [||] and [if (c)]. *)
Definition truthy (v : jsval) : bool :=
  match v with
  | VUndefined | VNull => false
  | VBool b => b
  | VNum NaN => false
  | VNum (Num z) => negb (z =? 0)
  | VNum _ => true
  | VStr s => negb (String.eqb s "")
  end.

(** [a || b] *)
Definition js_or (a b : jsval) : jsval := if truthy a then a else b.

Definition is_digit (c : ascii) : bool :=
  let n := Z.of_nat (nat_of_ascii c) in (48 <=? n) && (n <=? 57).

Definition is_space (c : ascii) : bool :=
  let n := Z.of_nat (nat_of_ascii c) in
  (n =? 32) || ((9 <=? n) && (n <=? 13)).

Fixpoint digits_value (s : string) (acc : Z) : option Z :=
  match s with
  | EmptyString => Some acc
  | String c s' =>
      if is_digit c
      then digits_value s' (10 * acc + (Z.of_nat (nat_of_ascii c) - 48))
      else None
  end.

Fixpoint skip_spaces (s : string) : string :=
  match s with
  | String c s' => if is_space c then skip_spaces s' else s
  | EmptyString => EmptyString
  end.

Fixpoint string_rev (s acc : string) : string :=
  match s with
  | EmptyString => acc
  | String c s' => string_rev s' (String c acc)
  end.

Definition trim (s : string) : string :=
  string_rev (skip_spaces (string_rev (skip_spaces s) "")) "".

(** [Number(s)] on a string: surrounding white space is dropped, the empty
    string is [0], then an optional sign followed by [Infinity] or by
    decimal digits.  Any other text is not a number: [NaN].  Numerals with
    a fraction, an exponent or a radix prefix are outside this model (it has
    no value for them other than [NaN]) and no statement below is made at
    such an input. *)
Definition StringToNumber (s : string) : jsnum :=
  let t := trim s in
  if String.eqb t "" then Num 0 else
  let '(neg, body) :=
    match t with
    | String "+"%char r => (false, r)
    | String "-"%char r => (true, r)
    | _ => (false, t)
    end in
  if String.eqb body "Infinity" then (if neg then NegInf else PosInf)
  else if String.eqb body "" then NaN
  else match digits_value body 0 with
       | Some v => Num (if neg then - v else v)
       | None => NaN
       end.

(** [Number(v)] *)
Definition Number (v : jsval) : jsnum :=
  match v with
  | VUndefined => NaN
  | VNull => Num 0
  | VBool b => Num (if b then 1 else 0)
  | VNum n => n
  | VStr s => StringToNumber s
  end.

(** ** Events, SSE chunks and response objects *)

(** The objects passed to [sseSend]. *)
Inductive Event :=
  | Queued (id size : Z)
  | Backpressure (size : Z)
  | Processed (id latency size : Z)
  | Stopped (produced consumed size : Z).

(** What a [data:] line carries: the initial snapshot or a live event. *)
Inductive Payload :=
  | Snapshot (produced consumed queueSize : Z)
  | Live (e : Event).

(** One [res.write] argument.  [EventField n] is the text
    [event: n] followed by one newline; [Data p] is [data: ] followed by the JSON of [p]
    and a blank line, which ends an SSE event. *)
Inductive Chunk := EventField (name : string) | Data (p : Payload).

(** A response object kept open for streaming: whether a chunk written to
    it still reaches the client ([false] once the peer is gone or the
    response has been ended) and what has reached the client so far. *)
Record Conn := mkConn { writable : bool; received : list Chunk }.

(** How an SSE client reads the chunks: an [event:] field names the event
    completed by the next blank line; without one the event is a
    [message]. *)
Fixpoint sse_events (pending : option string) (cs : list Chunk)
  : list (string * Payload) :=
  match cs with
  | [] => []
  | EventField n :: cs' => sse_events (Some n) cs'
  | Data p :: cs' => (default "message"%string pending, p) :: sse_events None cs'
  end.

(** ** Process state *)

(** A pending [setTimeout] callback. *)
Inductive Timer :=
  | Work (job : Job)     (* the arrow function of [consume], closing over [job] *)
  | Poll (ms : jsnum).   (* [setTimeout(consume, consumePollMs)], with the delay passed *)

Record State := mkState {
  queue : Queue.t;
  produced : Z;
  consumed : Z;
  running : bool;
  consumePollMs : jsnum;
  subscribers : list nat;     (* the [Set], in insertion order, of response objects *)
  conns : gmap nat Conn;      (* the response objects themselves *)
  timers : list Timer;        (* callbacks scheduled and not yet run *)
  now : Z;                    (* what [Date.now()] returns *)
  emitted : list Event        (* history: the arguments of the [sseSend] calls so far *)
}.

Definition set_queue (q : Queue.t) (s : State) : State :=
  mkState q (produced s) (consumed s) (running s) (consumePollMs s)
          (subscribers s) (conns s) (timers s) (now s) (emitted s).
Definition set_produced (p : Z) (s : State) : State :=
  mkState (queue s) p (consumed s) (running s) (consumePollMs s)
          (subscribers s) (conns s) (timers s) (now s) (emitted s).
Definition set_consumed (c : Z) (s : State) : State :=
  mkState (queue s) (produced s) c (running s) (consumePollMs s)
          (subscribers s) (conns s) (timers s) (now s) (emitted s).
Definition set_running (b : bool) (s : State) : State :=
  mkState (queue s) (produced s) (consumed s) b (consumePollMs s)
          (subscribers s) (conns s) (timers s) (now s) (emitted s).
Definition set_consumePollMs (n : jsnum) (s : State) : State :=
  mkState (queue s) (produced s) (consumed s) (running s) n
          (subscribers s) (conns s) (timers s) (now s) (emitted s).
Definition set_subscribers (l : list nat) (s : State) : State :=
  mkState (queue s) (produced s) (consumed s) (running s) (consumePollMs s)
          l (conns s) (timers s) (now s) (emitted s).
Definition set_conns (m : gmap nat Conn) (s : State) : State :=
  mkState (queue s) (produced s) (consumed s) (running s) (consumePollMs s)
          (subscribers s) m (timers s) (now s) (emitted s).
Definition set_timers (l : list Timer) (s : State) : State :=
  mkState (queue s) (produced s) (consumed s) (running s) (consumePollMs s)
          (subscribers s) (conns s) l (now s) (emitted s).
Definition set_now (t : Z) (s : State) : State :=
  mkState (queue s) (produced s) (consumed s) (running s) (consumePollMs s)
          (subscribers s) (conns s) (timers s) t (emitted s).
Definition set_emitted (l : list Event) (s : State) : State :=
  mkState (queue s) (produced s) (consumed s) (running s) (consumePollMs s)
          (subscribers s) (conns s) (timers s) (now s) l.

(** ** The fan-out *)

(** [res.write(chunk)] on the response object named [c]: the chunk reaches
    the client when the response is still open; on a response that has
    been ended, or whose peer is gone, nothing is delivered and the object
    is left as it was.  How the platform reports such a refusal (a return
    value, an [error] event on a later tick) is not part of this model. *)
Definition write (c : nat) (ch : Chunk) (m : gmap nat Conn) : gmap nat Conn :=
  match m !! c with
  | Some k =>
      if writable k
      then <[c := mkConn true (received k ++ [ch])]> m
      else m
  | None => m
  end.

(** [try { res.write(line); } catch{}]: were the call to throw, the empty
    [catch] would swallow the exception and leave the object as it was,
    which is also what a refused write leaves; then the iteration goes
    on. *)
Definition try_write (ch : Chunk) (m : gmap nat Conn) (c : nat) : gmap nat Conn :=
  write c ch m.

(** [sseSend(obj)]: one [data:] line to every member of [subscribers], in
    the set's iteration order. *)
Definition sseSend (e : Event) (s : State) : State :=
  let line := Data (Live e) in
  set_emitted (emitted s ++ [e])
    (set_conns (foldl (try_write line) (conns s) (subscribers s)) s).

(** [subscribers.add(res)] and [subscribers.delete(res)]. *)
Definition set_add (c : nat) (l : list nat) : list nat :=
  if decide (c ∈ l) then l else l ++ [c].

Definition set_delete (c : nat) (l : list nat) : list nat :=
  filter (fun x => x ≠ c) l.

(** ** The consumer *)

(** [function consume()] *)
Definition consume (s : State) : State :=
  if negb (running s) then s
  else
    match Queue.shift (queue s) with
    | (Some job, q') =>
        set_timers (timers s ++ [Work job]) (set_queue q' s)
    | (None, _) =>
        set_timers (timers s ++ [Poll (consumePollMs s)]) s
    end.

(** The callback scheduled by [consume] for a dequeued [job]. *)
Definition work_done (job : Job) (s : State) : State :=
  let s1 := set_consumed (consumed s + 1) s in
  let latency := now s1 - job_ts job in
  let s2 := sseSend (Processed (job_id job) latency (Queue.size (queue s1))) s1 in
  consume s2.

(** ** The producer *)

(** The [for] loop of [addJobs], from loop counter [i] on.  [fuel] bounds
    the number of tests of [i < count]; [None] means it ran out.  The
    source reads [Date.now()] for each item; the clock of this model stands
    still while a callback runs, so nothing is stated below about how the
    time stamps of one batch differ. *)
Fixpoint addJobs_loop (fuel : nat) (count : jsnum) (i accepted rejected : Z)
    (s : State) : option (Z * Z * State) :=
  match fuel with
  | O => None
  | S fuel' =>
      if js_lt (Num i) count then
        let s1 := set_produced (produced s + 1) s in
        let item := mkJob (produced s1) (now s1) in
        let '(ok, q') := Queue.push (queue s1) item in
        if ok then
          let s2 := set_queue q' s1 in
          let s3 := sseSend (Queued (produced s2) (Queue.size (queue s2))) s2 in
          addJobs_loop fuel' count (i + 1) (accepted + 1) rejected s3
        else
          let s3 := sseSend (Backpressure (Queue.size (queue s1))) s1 in
          Some (accepted, rejected + 1, s3)
      else Some (accepted, rejected, s)
  end.

(** One pass of the loop body that accepts the item. *)
Definition accept_pass (s : State) : State :=
  let s1 := set_produced (produced s + 1) s in
  let s2 := set_queue (Queue.push (queue s1) (mkJob (produced s1) (now s1))).2 s1 in
  sseSend (Queued (produced s2) (Queue.size (queue s2))) s2.

(** The pass that is refused and leaves the loop. *)
Definition reject_pass (s : State) : State :=
  let s1 := set_produced (produced s + 1) s in
  sseSend (Backpressure (Queue.size (queue s1))) s1.

(** Every pass through the loop body that does not [break] stores one more
    item, so the free room of the queue bounds the passes. *)
Definition addJobs_fuel (s : State) : nat :=
  S (S (Z.to_nat (Queue.maxSize (queue s) - Queue.size (queue s)))).

(** The object [addJobs] returns. *)
Record EnqueueResult := mkEnqueueResult {
  r_accepted : Z; r_rejected : Z; r_queueSize : Z; r_produced : Z }.

(** [addJobs(count)] *)
Definition addJobs (count : jsnum) (s : State) : EnqueueResult * State :=
  match addJobs_loop (addJobs_fuel s) count 0 0 0 s with
  | Some (a, r, s') =>
      (mkEnqueueResult a r (Queue.size (queue s')) (produced s'), s')
  | None => (mkEnqueueResult 0 0 (Queue.size (queue s)) (produced s), s)
  end.

(** ** The HTTP handlers *)

(** The body of a POST as [JSON.parse] sees it. [BodyThrows]: the [try]
    block throws ([JSON.parse] rejects the text, or the parsed value is
    [null] and reading [.count] fails).  [BodyCount v]: [j.count] evaluates
    to [v] ([VUndefined] when there is no such field, as for an empty
    body). *)
Inductive PostBody := BodyThrows | BodyCount (v : jsval).

(** An incoming request.  [url] is [req.url]; [searchParams] is the parsed
    query of that URL as [new URL(req.url, base).searchParams] gives it;
    [res] names the response object created for the request. *)
Record Request := mkRequest {
  method : string;
  url : string;
  searchParams : list (string * string);
  body : PostBody;
  res : nat
}.

(** [url.searchParams.get(name)]: the first value, [null] ([VNull]) if
    there is none. *)
Fixpoint searchParams_get (name : string) (ps : list (string * string)) : jsval :=
  match ps with
  | [] => VNull
  | (k, v) :: ps' => if String.eqb k name then VStr v else searchParams_get name ps'
  end.

Inductive Response :=
  | NoContent204
  | EventStream
  | ControlJson (running : bool) (consumePollMs : jsnum)
  | EnqueueJson (r : EnqueueResult)
  | HealthJson (subscribers : nat) (running : bool) (produced consumed queueSize : Z)
               (consumePollMs : jsnum)
  | NotFound404.

(** The response object [c] that comes with a request: the server creates
    it, open and with nothing written, unless the program already holds an
    object of that name. *)
Definition new_response (c : nat) (m : gmap nat Conn) : gmap nat Conn :=
  match m !! c with
  | Some _ => m
  | None => <[c := mkConn true []]> m
  end.

(** The [/events] branch: the two writes of the initial snapshot on the
    request's response object [c], then the registration. *)
Definition events_handler (c : nat) (s : State) : State :=
  let snap := Snapshot (produced s) (consumed s) (Queue.size (queue s)) in
  let m0 := new_response c (conns s) in
  let m1 := write c (EventField "init") m0 in
  let m2 := write c (Data snap) m1 in
  set_subscribers (set_add c (subscribers s)) (set_conns m2 s).

(** The [/control] branch, up to the response. *)
Definition control (action : jsval) (consumeMs : jsval) (s : State) : State :=
  match action with
  | VStr a =>
      if String.eqb a "pause" then set_running false s
      else if String.eqb a "resume" then
        (if negb (running s) then consume (set_running true s) else s)
      else if String.eqb a "set" then
        (if truthy consumeMs
         then set_consumePollMs (Math_max (Num 1) (Number consumeMs)) s
         else s)
      else s
  | _ => s
  end.

Definition control_handler (r : Request) (s : State) : Response * State :=
  let s' := control (searchParams_get "action" (searchParams r))
                    (searchParams_get "consumeMs" (searchParams r)) s in
  (ControlJson (running s') (consumePollMs s'), s').

(** [Math.max(1, Number(url.searchParams.get('count') || 1))] *)
Definition get_count (r : Request) : jsnum :=
  Math_max (Num 1)
    (Number (js_or (searchParams_get "count" (searchParams r)) (VNum (Num 1)))).

(** [let count=1; try{ ...; count = Number(j.count||1); }catch{}] followed by
    [Math.max(1, count)]. *)
Definition post_count (r : Request) : jsnum :=
  let count :=
    match body r with
    | BodyThrows => Num 1
    | BodyCount v => Number (js_or v (VNum (Num 1)))
    end in
  Math_max (Num 1) count.

Definition health (s : State) : Response :=
  HealthJson (length (subscribers s)) (running s) (produced s) (consumed s)
             (Queue.size (queue s)) (consumePollMs s).

(** The request listener given to [http.createServer].  For a POST the
    state is only touched in the [end] callback of the request, which is
    taken here as part of the same transition. *)
Definition handle (r : Request) (s : State) : Response * State :=
  if String.eqb (method r) "OPTIONS" then (NoContent204, s)
  else if String.eqb (url r) "/events" then (EventStream, events_handler (res r) s)
  else if String.prefix "/control" (url r) then control_handler r s
  else if String.prefix "/enqueue" (url r) && String.eqb (method r) "GET" then
    let '(o, s') := addJobs (get_count r) s in (EnqueueJson o, s')
  else if String.prefix "/enqueue" (url r) && String.eqb (method r) "POST" then
    let '(o, s') := addJobs (post_count r) s in (EnqueueJson o, s')
  else if String.eqb (url r) "/health" then (health s, s)
  else (NotFound404, s).

(** ** Shutdown signal *)

(** [res.end()] inside [try]: the response is finished; nothing to catch on
    one that is gone. *)
Definition try_end (m : gmap nat Conn) (c : nat) : gmap nat Conn :=
  match m !! c with
  | Some k => <[c := mkConn false (received k)]> m
  | None => m
  end.

(** The [SIGINT] listener. *)
Definition sigint (s : State) : State :=
  let s1 := set_running false s in
  let s2 := sseSend (Stopped (produced s1) (consumed s1) (Queue.size (queue s1))) s1 in
  set_conns (foldl try_end (conns s2) (subscribers s2)) s2.

(** ** Transitions

    One label per callback the event loop can run.  Timer delays are not
    measured: any pending timer may be the next to expire, so the
    transitions cover every order in which the real timers can fire. *)

Inductive Label :=
  | Http (r : Request)      (* a request is handled *)
  | Fire (k : nat)          (* the [k]-th pending timer runs its callback *)
  | Close (c : nat)         (* the [close] event of the request behind [c] *)
  | Break (c : nat)         (* the peer of [c] goes away: writes start failing *)
  | Advance (dt : Z)        (* the clock moves on between callbacks *)
  | Sigint.

Definition fire (k : nat) (s : State) : State :=
  match timers s !! k with
  | None => s
  | Some t =>
      let s' := set_timers (delete k (timers s)) s in
      match t with
      | Work job => work_done job s'
      | Poll _ => consume s'
      end
  end.

Definition break_conn (c : nat) (s : State) : State :=
  match conns s !! c with
  | Some k => set_conns (<[c := mkConn false (received k)]> (conns s)) s
  | None => s
  end.

Definition step (s : State) (l : Label) : State :=
  match l with
  | Http r => (handle r s).2
  | Fire k => fire k s
  | Close c => set_subscribers (set_delete c (subscribers s)) s
  | Break c => break_conn c s
  | Advance dt => set_now (now s + dt) s
  | Sigint => sigint s
  end.

Definition run (s : State) (ls : list Label) : State := foldl step s ls.

(** The module's top level: the globals as initialised, then the call
    [consume()] on the last line.  The source builds [new Queue(20)];
    the capacity is a parameter here, [boot 20 t0] is the program. *)
Definition globals (cap t0 : Z) : State :=
  mkState (Queue.new cap) 0 0 true (Num 50) [] ∅ [] t0 [].

Definition boot (cap t0 : Z) : State := consume (globals cap t0).

(** ** Small requests used in examples *)

Definition GET (u : string) (ps : list (string * string)) (c : nat) : Request :=
  mkRequest "GET" u ps BodyThrows c.

Definition POST (u : string) (b : PostBody) (c : nat) : Request :=
  mkRequest "POST" u [] b c.

Definition req_events (c : nat) : Label := Http (GET "/events" [] c).

Definition req_enqueue (n : string) : Label :=
  Http (GET ("/enqueue?count=" ++ n) [("count"%string, n)] 0).

Definition req_control (a : string) : Label :=
  Http (GET ("/control?action=" ++ a) [("action"%string, a)] 0).

(** ** Observations on states, histories and labels *)

Fixpoint count_if {A : Type} (p : A -> bool) (l : list A) : Z :=
  match l with
  | [] => 0
  | x :: l' => (if p x then 1 else 0) + count_if p l'
  end.

Definition is_work (t : Timer) : bool :=
  match t with Work _ => true | Poll _ => false end.

Definition is_queued (e : Event) : bool :=
  match e with Queued _ _ => true | _ => false end.

Definition is_backpressure (e : Event) : bool :=
  match e with Backpressure _ => true | _ => false end.

Definition is_processed (e : Event) : bool :=
  match e with Processed _ _ _ => true | _ => false end.

(** Items taken out of the queue whose processing callback has not run
    yet. *)
Definition inflight (s : State) : Z := count_if is_work (timers s).

(** Every pending timer is the continuation of one chain of [consume]
    calls: a chain ends only by finding [running] false, and each call that
    goes on schedules exactly one timer. *)
Definition active_loops (s : State) : nat := length (timers s).

(** The bookkeeping of the counters against the queue and the history. *)
Definition conserved (s : State) : Prop :=
  produced s
  = consumed s + Queue.size (queue s) + inflight s
    + count_if is_backpressure (emitted s) /\
  produced s
  = count_if is_queued (emitted s) + count_if is_backpressure (emitted s) /\
  consumed s = count_if is_processed (emitted s).

(** A request that reaches the [resume] branch of the [/control] handler. *)
Definition is_resume (l : Label) : bool :=
  match l with
  | Http r =>
      negb (String.eqb (method r) "OPTIONS")
      && negb (String.eqb (url r) "/events")
      && String.prefix "/control" (url r)
      && match searchParams_get "action" (searchParams r) with
         | VStr a => String.eqb a "resume"
         | _ => false
         end
  | _ => false
  end.

(** A request whose response object is [c]. *)
Definition uses_res (c : nat) (l : Label) : bool :=
  match l with
  | Http r => Nat.eqb (res r) c
  | _ => false
  end.

(** What has been written to the response object [c]. *)
Definition received_by (c : nat) (s : State) : list Chunk :=
  match conns s !! c with
  | Some k => received k
  | None => []
  end.

(** What holds between a paused state and a later state reached without
    resuming: still paused, every completed processing accounted for by an
    item that was in flight and by one [processed] event, and the queue
    only extended at its tail. *)
Definition paused_since (s s' : State) : Prop :=
  running s' = false /\
  consumed s' + inflight s' = consumed s + inflight s /\
  count_if is_processed (emitted s') - count_if is_processed (emitted s)
  = consumed s' - consumed s /\
  0 <= consumed s' - consumed s /\
  exists tail, Queue.items (queue s') = Queue.items (queue s) ++ tail.

(** The chunks of the initial snapshot followed by live events only. *)
Definition snapshot_then_live (p c q : Z) (evs : list Event) : list Chunk :=
  [EventField "init"; Data (Snapshot p c q)] ++ map (fun e => Data (Live e)) evs.

(** Between [s] and [s'] the response object [c], if it exists, has only
    been written live [data:] lines. *)
Definition log_extends (c : nat) (s s' : State) : Prop :=
  forall k, conns s !! c = Some k ->
    exists w evs,
      conns s' !! c
      = Some (mkConn w (received k ++ map (fun e => Data (Live e)) evs)).

(** ** Identifiers of the items, where they are *)

(** The ids announced by [queued] events, in order of emission. *)
Fixpoint queued_ids (es : list Event) : list Z :=
  match es with
  | [] => []
  | Queued id _ :: es' => id :: queued_ids es'
  | _ :: es' => queued_ids es'
  end.

(** The ids announced by [processed] events, in order of emission. *)
Fixpoint processed_ids (es : list Event) : list Z :=
  match es with
  | [] => []
  | Processed id _ _ :: es' => id :: processed_ids es'
  | _ :: es' => processed_ids es'
  end.

(** The ids of the items held by pending processing callbacks, in the
    order in which the callbacks were scheduled. *)
Fixpoint work_ids (ts : list Timer) : list Z :=
  match ts with
  | [] => []
  | Work j :: ts' => job_id j :: work_ids ts'
  | Poll _ :: ts' => work_ids ts'
  end.

(** The ids of the items stored in the queue, head first. *)
Definition queue_ids (s : State) : list Z := map job_id (Queue.items (queue s)).

(** Free places of the queue. *)
Definition room (s : State) : Z :=
  Z.max 0 (Queue.maxSize (queue s) - Queue.size (queue s)).

(** The items [addJobs] builds when it starts with [produced = p] at time
    [t] and has [n] of them accepted: ids [p+1 .. p+n]. *)
Fixpoint new_jobs (p t : Z) (n : nat) : list Job :=
  match n with
  | O => []
  | S n' => mkJob (p + 1) t :: new_jobs (p + 1) t n'
  end.

(** A delay that is [NaN] or at least 1. *)
Definition delay_ok (n : jsnum) : bool :=
  match n with
  | NaN => true
  | _ => js_ge n (Num 1)
  end.

Definition timer_delay_ok (t : Timer) : bool :=
  match t with
  | Work _ => true
  | Poll ms => delay_ok ms
  end.

(** The states the program reaches from its start-up with a queue of
    capacity [cap]. *)
Definition reachable (cap t0 : Z) (s : State) : Prop :=
  exists ls, s = run (boot cap t0) ls.

(** The ids held by pending callbacks and by the queue are increasing and
    lie between 1 and [produced]. *)
Definition ids_ordered_inv (s : State) : Prop :=
  0 <= produced s /\
  StronglySorted Z.lt (work_ids (timers s) ++ queue_ids s) /\
  Forall (fun i => 1 <= i <= produced s) (work_ids (timers s) ++ queue_ids s).

(** Every id announced as queued is held exactly once: by a [processed]
    event, by a pending callback or by the queue; the announced ids are
    increasing and lie between 1 and [produced]. *)
Definition items_accounted_inv (s : State) : Prop :=
  0 <= produced s /\
  queued_ids (emitted s)
  ≡ₚ processed_ids (emitted s) ++ work_ids (timers s) ++ queue_ids s /\
  StronglySorted Z.lt (queued_ids (emitted s)) /\
  Forall (fun i => 1 <= i <= produced s) (queued_ids (emitted s)).

(** At most one timer pending, and the ids announced as queued are, in
    that order, those processed, then the one in flight, then the queue. *)
Definition single_loop_inv (s : State) : Prop :=
  (length (timers s) <= 1)%nat /\
  queued_ids (emitted s)
  = processed_ids (emitted s) ++ work_ids (timers s) ++ queue_ids s.

(** The observer set has no duplicates and every member is a response
    object the program holds. *)
Definition subscribers_inv (s : State) : Prop :=
  NoDup (subscribers s) /\
  forall c, c ∈ subscribers s -> is_Some (conns s !! c).

(** Whether a chunk written to [c] would still reach the client. *)
Definition conn_open (c : nat) (m : gmap nat Conn) : bool :=
  match m !! c with
  | Some k => writable k
  | None => false
  end.

(** An observer whose connection is already closed. *)
Definition stale (c : nat) (s : State) : bool := negb (conn_open c (conns s)).

(** The [close] event of the request behind [c]. *)
Definition is_close (c : nat) (l : Label) : bool :=
  match l with
  | Close d => Nat.eqb d c
  | _ => false
  end.

(** The ids [p+1 .. p+n]. *)
Fixpoint ids_from (p : Z) (n : nat) : list Z :=
  match n with
  | O => []
  | S n' => (p + 1) :: ids_from (p + 1) n'
  end.

Fixpoint all_digits (s : string) : bool :=
  match s with
  | EmptyString => true
  | String c s' => is_digit c && all_digits s'
  end.

(** A text that is empty or, white space around it apart, an optional sign
    followed by one or more decimal digits. *)
Definition decimal_integer_text (s : string) : bool :=
  let t := trim s in
  String.eqb t "" ||
  let body :=
    match t with
    | String "+"%char r => r
    | String "-"%char r => r
    | _ => t
    end in
  negb (String.eqb body "") && all_digits body.

(** A value of the [count] parameter or field that is missing, a boolean,
    an integer or an infinity, or a text as above. *)
Definition integer_valued (v : jsval) : bool :=
  match v with
  | VUndefined | VNull | VBool _ => true
  | VNum _ => true
  | VStr t => decimal_integer_text t
  end.

(** ** The plain SSE server

    [examples/communication/sse/sse_server.js]: one global [counter], and
    per [/events] request an [init] event followed by a [setInterval]
    callback that increments the counter and writes it to that response
    until the request's [close] event clears the interval.  The server
    never ends a stream itself, and [write] is taken to succeed. *)

Module SseServer.

(** The two texts written: the [init] event and [data: {"tick":n}]. *)
Inductive chunk := Init | Tick (n : Z).

Record t := mk {
  counter : Z;
  streams : gmap nat (list chunk);   (* what each response object was written *)
  intervals : list nat               (* responses whose interval is set *)
}.

Definition boot : t := mk 0 ∅ [].

Inductive response := EventStream | NotFound404.

(** The request listener, for a request with response object [c]. *)
Definition handle (url : string) (c : nat) (s : t) : response * t :=
  if String.eqb url "/events"
  then (EventStream, mk (counter s) (<[c := [Init]]> (streams s)) (intervals s ++ [c]))
  else (NotFound404, s).

(** The [setInterval] callback of response [c]:
    [counter++; res.write(...counter...)]. *)
Definition tick (c : nat) (s : t) : t :=
  mk (counter s + 1)
     (alter (fun l => l ++ [Tick (counter s + 1)]) c (streams s))
     (intervals s).

(** [clearInterval(interval)] in the [close] listener of response [c]. *)
Definition close (c : nat) (s : t) : t :=
  mk (counter s) (streams s) (filter (fun x => x ≠ c) (intervals s)).

Inductive label :=
  | Request (url : string) (c : nat)
  | Interval (c : nat)     (* the interval of [c] fires, if it is set *)
  | Closed (c : nat).

Definition step (s : t) (l : label) : t :=
  match l with
  | Request u c => (handle u c s).2
  | Interval c => if decide (c ∈ intervals s) then tick c s else s
  | Closed c => close c s
  end.

Definition run (s : t) (ls : list label) : t := foldl step s ls.

(** The numbers of the ticks in a stream. *)
Fixpoint ticks (l : list chunk) : list Z :=
  match l with
  | [] => []
  | Init :: l' => ticks l'
  | Tick n :: l' => n :: ticks l'
  end.

Definition stream_of (c : nat) (s : t) : list chunk :=
  default [] (streams s !! c).

Definition mentions (c : nat) (l : label) : bool :=
  match l with
  | Request _ d => Nat.eqb d c
  | Interval _ | Closed _ => false
  end.

End SseServer.

(** A stream of the plain SSE server: the [init] event, then ticks whose
    numbers increase and lie between 1 and the counter. *)
Definition sse_stream_shape (counter : Z) (l : list SseServer.chunk) : Prop :=
  exists ns,
    l = SseServer.Init :: map SseServer.Tick ns /\
    StronglySorted Z.lt ns /\
    Forall (fun n => 1 <= n <= counter) ns.

Definition sse_server_inv (s : SseServer.t) : Prop :=
  0 <= SseServer.counter s /\
  (forall c l, SseServer.streams s !! c = Some l ->
     sse_stream_shape (SseServer.counter s) l) /\
  (forall c1 c2 l1 l2 n, c1 <> c2 ->
     SseServer.streams s !! c1 = Some l1 ->
     SseServer.streams s !! c2 = Some l2 ->
     n ∈ SseServer.ticks l1 -> n ∉ SseServer.ticks l2).

(** Every resume request of [ls], handled from [s] on, arrives while
    [running] is true or while no timer is pending (the previous loop has
    come to a full stop). *)
Fixpoint resumes_when_stopped (s : State) (ls : list Label) : bool :=
  match ls with
  | [] => true
  | l :: ls' =>
      (negb (is_resume l) || running s || (length (timers s) =? 0)%nat)
      && resumes_when_stopped (step s l) ls'
  end.

(** The latencies announced by [processed] events. *)
Fixpoint latencies (es : list Event) : list Z :=
  match es with
  | [] => []
  | Processed _ latency _ :: es' => latency :: latencies es'
  | _ :: es' => latencies es'
  end.

(** The clock never goes back. *)
Definition clock_monotone (ls : list Label) : bool :=
  forallb (fun l => match l with Advance dt => 0 <=? dt | _ => true end) ls.

(** No item in the queue or in flight is stamped later than the clock, and
    no latency announced so far is negative. *)
Definition timestamps_inv (s : State) : Prop :=
  Forall (fun j => job_ts j <= now s) (Queue.items (queue s)) /\
  Forall (fun t => match t with Work j => job_ts j <= now s | Poll _ => True end)
         (timers s) /\
  Forall (fun x => 0 <= x) (latencies (emitted s)).

(** * Theorems *)

(** ** Properties of the queue *)

Section QueueFacts.

Import Queue.

Lemma push_full q item :
  size q >= maxSize q -> push q item = (false, q).
Proof.
  intros H. unfold push.
  destruct (Z.geb_spec (size q) (maxSize q)) as [_|Hlt]; [reflexivity | lia].
Qed.

Lemma push_room q item :
  size q < maxSize q ->
  push q item = (true, mk (items q ++ [item]) (maxSize q)).
Proof.
  intros H. unfold push.
  destruct (Z.geb_spec (size q) (maxSize q)) as [Hge|_]; [lia | reflexivity].
Qed.

Lemma size_nonneg q : 0 <= size q.
Proof. unfold size. lia. Qed.

Lemma size_snoc l x m : size (mk (l ++ [x]) m) = size (mk l m) + 1.
Proof. unfold size; simpl. rewrite length_app; simpl. lia. Qed.

Lemma call_maxSize q o : maxSize (call q o).2 = maxSize q.
Proof.
  destruct o as [item|]; simpl.
  - unfold push. destruct (size q >=? maxSize q); reflexivity.
  - unfold shift. destruct (items q); reflexivity.
Qed.

Lemma call_bounded q o :
  0 <= maxSize q -> size q <= maxSize q -> size (call q o).2 <= maxSize q.
Proof.
  intros Hcap Hle. destruct o as [item|]; simpl.
  - unfold push. destruct (Z.geb_spec (size q) (maxSize q)) as [Hge|Hlt]; simpl.
    + exact Hle.
    + rewrite size_snoc. destruct q as [l m]; simpl in *. lia.
  - unfold shift. destruct q as [[|j rest] m]; simpl in *; [exact Hle|].
    unfold size in *; simpl in *. lia.
Qed.

Lemma calls_cons q o os :
  calls q (o :: os) =
    ((call q o).1 :: (calls (call q o).2 os).1, (calls (call q o).2 os).2).
Proof.
  simpl. destruct (call q o) as [r q1]; simpl.
  destruct (calls q1 os) as [rs q2]; reflexivity.
Qed.

Lemma calls_invariant os : forall q,
  0 <= maxSize q -> size q <= maxSize q ->
  maxSize (calls q os).2 = maxSize q /\ size (calls q os).2 <= maxSize q.
Proof.
  induction os as [|o os IH]; intros q Hcap Hle.
  - simpl. split; [reflexivity | exact Hle].
  - rewrite calls_cons; simpl.
    pose proof (call_maxSize q o) as Hm.
    pose proof (call_bounded q o Hcap Hle) as Hb.
    destruct (IH (call q o).2) as [IH1 IH2]; [lia | lia |].
    split; [congruence | lia].
Qed.

(** The FIFO bookkeeping equation: what was accepted so far is what was
    already handed out followed by what is still stored. *)
Lemma calls_fifo os : forall q,
  items q ++ accepted os (calls q os).1
  = dequeued (calls q os).1 ++ items (calls q os).2.
Proof.
  induction os as [|o os IH]; intros q.
  - simpl. rewrite app_nil_r. reflexivity.
  - rewrite calls_cons. cbn [fst snd].
    specialize (IH (call q o).2).
    destruct o as [item|]; cbn [call] in *.
    + unfold push in *.
      destruct (size q >=? maxSize q); cbn [fst snd accepted dequeued] in *.
      * exact IH.
      * rewrite <- IH. cbn [items]. rewrite <- app_assoc. reflexivity.
    + unfold shift in *.
      destruct q as [[|j rest] m]; cbn [items fst snd accepted dequeued] in *.
      * exact IH.
      * cbn [maxSize] in *. rewrite <- !app_comm_cons. f_equal. exact IH.
Qed.

End QueueFacts.

(** ** The bounded queue *)

(** C1. Capacity invariant.  On a queue built with a positive capacity,
    after any sequence of calls the size is at most the capacity; at
    capacity, [push] returns [false] and gives back the same queue; below
    capacity, [push] returns [true] and the item is appended at the tail. *)
Theorem C1_capacity_invariant (cap : Z) (os : list Queue.op) :
  0 < cap ->
  let q := (Queue.calls (Queue.new cap) os).2 in
  Queue.size q <= cap /\
  (forall item, Queue.size q = cap -> Queue.push q item = (false, q)) /\
  (forall item, Queue.size q < cap ->
     Queue.push q item = (true, Queue.mk (Queue.items q ++ [item]) cap)).
Proof.
  intros Hcap q.
  destruct (calls_invariant os (Queue.new cap)) as [Hm Hs].
  - simpl. lia.
  - unfold Queue.size; simpl. lia.
  - fold q in Hm, Hs. simpl in Hm, Hs. repeat split.
    + exact Hs.
    + intros item Heq. apply push_full. lia.
    + intros item Hlt. rewrite push_room by lia. rewrite Hm. reflexivity.
Qed.

Lemma C1_capacity_invariant_witness :
  0 < 2 /\
  let q := (Queue.calls (Queue.new 2)
              (Queue.pushes [mkJob 1 0; mkJob 2 0; mkJob 3 0])).2 in
  Queue.size q <= 2 /\
  (forall item, Queue.size q = 2 -> Queue.push q item = (false, q)) /\
  (forall item, Queue.size q < 2 ->
     Queue.push q item = (true, Queue.mk (Queue.items q ++ [item]) 2)).
Proof.
  split; [lia |].
  apply (C1_capacity_invariant 2
           (Queue.pushes [mkJob 1 0; mkJob 2 0; mkJob 3 0])).
  lia.
Defined.

(** C3. FIFO.  Take any sequence of calls on a new queue, and two items:
    [A], the [i]-th item accepted, and [B], the [j]-th, with [i < j].  The
    items accepted so far, in acceptance order, are the items dequeued so
    far, in dequeue order, followed by the items still stored.  Hence if
    [B] has been dequeued, [A] was dequeued at the earlier position [i];
    and if [A] is still stored, so is [B], further from the head.  On a
    non-empty queue [shift] removes and returns the head. *)
Theorem C3_fifo (cap : Z) (os : list Queue.op) (i j : nat) (A B : Job) :
  let rs := (Queue.calls (Queue.new cap) os).1 in
  let q := (Queue.calls (Queue.new cap) os).2 in
  (i < j)%nat ->
  Queue.accepted os rs !! i = Some A ->
  Queue.accepted os rs !! j = Some B ->
  Queue.accepted os rs = Queue.dequeued rs ++ Queue.items q /\
  ((j < length (Queue.dequeued rs))%nat ->
     Queue.dequeued rs !! i = Some A /\ Queue.dequeued rs !! j = Some B) /\
  ((length (Queue.dequeued rs) <= i)%nat ->
     Queue.items q !! (i - length (Queue.dequeued rs))%nat = Some A /\
     Queue.items q !! (j - length (Queue.dequeued rs))%nat = Some B) /\
  (forall x rest m,
     Queue.shift (Queue.mk (x :: rest) m) = (Some x, Queue.mk rest m)).
Proof.
  intros rs q Hij HA HB.
  pose proof (calls_fifo os (Queue.new cap)) as H. simpl in H.
  fold rs q in H. rewrite H in HA, HB.
  split; [exact H|]. split; [|split].
  - intros Hj. split.
    + rewrite lookup_app_l in HA by lia. exact HA.
    + rewrite lookup_app_l in HB by lia. exact HB.
  - intros Hi. split.
    + rewrite lookup_app_r in HA by lia. exact HA.
    + rewrite lookup_app_r in HB by lia. exact HB.
  - reflexivity.
Qed.

Lemma C3_fifo_witness :
  let os := [Queue.Push (mkJob 1 0); Queue.Push (mkJob 2 0); Queue.Shift;
             Queue.Push (mkJob 3 0); Queue.Shift] in
  let rs := (Queue.calls (Queue.new 2) os).1 in
  let q := (Queue.calls (Queue.new 2) os).2 in
  (0 < 1)%nat /\
  Queue.accepted os rs !! 0%nat = Some (mkJob 1 0) /\
  Queue.accepted os rs !! 1%nat = Some (mkJob 2 0) /\
  Queue.accepted os rs = Queue.dequeued rs ++ Queue.items q /\
  ((1 < length (Queue.dequeued rs))%nat ->
     Queue.dequeued rs !! 0%nat = Some (mkJob 1 0) /\
     Queue.dequeued rs !! 1%nat = Some (mkJob 2 0)) /\
  ((length (Queue.dequeued rs) <= 0)%nat ->
     Queue.items q !! (0 - length (Queue.dequeued rs))%nat = Some (mkJob 1 0) /\
     Queue.items q !! (1 - length (Queue.dequeued rs))%nat = Some (mkJob 2 0)) /\
  (forall x rest m,
     Queue.shift (Queue.mk (x :: rest) m) = (Some x, Queue.mk rest m)).
Proof.
  split; [lia |]. split; [reflexivity |]. split; [reflexivity |].
  apply (C3_fifo 2
           [Queue.Push (mkJob 1 0); Queue.Push (mkJob 2 0); Queue.Shift;
            Queue.Push (mkJob 3 0); Queue.Shift]
           0%nat 1%nat (mkJob 1 0) (mkJob 2 0));
    [lia | reflexivity | reflexivity].
Defined.

(** ** The batch loop terminates *)

Section AddJobsLoop.

Lemma addJobs_loop_S fuel count i a r s :
  addJobs_loop (S fuel) count i a r s =
    if js_lt (Num i) count then
      if Queue.size (queue s) >=? Queue.maxSize (queue s)
      then Some (a, r + 1, reject_pass s)
      else addJobs_loop fuel count (i + 1) (a + 1) r (accept_pass s)
    else Some (a, r, s).
Proof.
  cbn [addJobs_loop]. destruct (js_lt (Num i) count); [|reflexivity].
  unfold accept_pass, reject_pass, Queue.push. cbn [queue set_produced].
  destruct (Queue.size (queue s) >=? Queue.maxSize (queue s)); reflexivity.
Qed.

Lemma accept_pass_room s :
  Queue.size (queue s) < Queue.maxSize (queue s) ->
  Queue.maxSize (queue (accept_pass s)) = Queue.maxSize (queue s) /\
  Queue.size (queue (accept_pass s)) = Queue.size (queue s) + 1.
Proof.
  intros H. unfold accept_pass. cbn [sseSend set_emitted set_conns queue set_queue set_produced].
  rewrite push_room by exact H. cbn [snd Queue.maxSize].
  split; [reflexivity | apply size_snoc].
Qed.

(** With fuel beyond the free room of the queue, the loop returns. *)
Lemma addJobs_loop_total fuel : forall count i a r s,
  (Z.to_nat (Queue.maxSize (queue s) - Queue.size (queue s)) < fuel)%nat ->
  is_Some (addJobs_loop (S fuel) count i a r s).
Proof.
  induction fuel as [|fuel IH]; intros count i a r s Hf; [lia|].
  rewrite addJobs_loop_S.
  destruct (js_lt (Num i) count); [|eexists; reflexivity].
  destruct (Z.geb_spec (Queue.size (queue s)) (Queue.maxSize (queue s)))
    as [Hge|Hlt]; [eexists; reflexivity|].
  destruct (accept_pass_room s Hlt) as [Hm Hs].
  destruct fuel as [|fuel'].
  - exfalso. lia.
  - apply IH. rewrite Hm, Hs. lia.
Qed.

Lemma addJobs_returns count s :
  exists a r s',
    addJobs_loop (addJobs_fuel s) count 0 0 0 s = Some (a, r, s') /\
    addJobs count s =
      (mkEnqueueResult a r (Queue.size (queue s')) (produced s'), s').
Proof.
  destruct (addJobs_loop_total
              (S (Z.to_nat (Queue.maxSize (queue s) - Queue.size (queue s))))
              count 0 0 0 s) as [[[a r] s'] H]; [lia|].
  exists a, r, s'. split; [exact H|].
  unfold addJobs, addJobs_fuel. rewrite H. reflexivity.
Qed.

End AddJobsLoop.

(** ** Scenarios evaluated on the program *)

(** C4 (as amended).  From the empty queue of capacity 5, one request for
    7 items is answered with accepted = 5, rejected = 1 and queueSize = 5;
    the events sent are five [queued] and then one [backpressure], that of
    the sixth attempt, and nothing is sent for a seventh: the loop has
    stopped. *)
Theorem C4_batch_scenario (t0 : Z) :
  let out := handle (GET "/enqueue?count=7" [("count", "7")] 0) (boot 5 t0) in
  exists o,
    out.1 = EnqueueJson o /\
    r_accepted o = 5 /\ r_rejected o = 1 /\ r_queueSize o = 5 /\
    Queue.size (queue out.2) = 5 /\
    emitted out.2
    = [Queued 1 1; Queued 2 2; Queued 3 3; Queued 4 4; Queued 5 5;
       Backpressure 5] /\
    count_if is_backpressure (emitted out.2) = 1.
Proof.
  eexists. vm_compute. repeat split.
Qed.

(** C4, the claim as written: the answer would carry rejected = 2. *)
Lemma C4_rejected_is_one_not_two :
  r_rejected (addJobs (Num 7) (boot 5 0)).1 <> 2.
Proof. vm_compute. discriminate. Qed.

(** ** Clamping of request parameters *)

Lemma clamp_ge_one (n : jsnum) :
  n <> NaN -> js_ge (Math_max (Num 1) n) (Num 1) = true.
Proof.
  destruct n as [|z| |]; intros H; try congruence; try reflexivity.
  unfold Math_max, js_lt. destruct (Z.ltb_spec 1 z) as [Hlt|Hge].
  - unfold js_ge, js_lt. destruct (Z.ltb_spec z 1); [lia | reflexivity].
  - reflexivity.
Qed.

Lemma clamp_nan : Math_max (Num 1) NaN = NaN.
Proof. reflexivity. Qed.

(** With [NaN] as count the test [i < count] fails at once: no attempt. *)
Lemma addJobs_nan (s : State) :
  addJobs NaN s
  = (mkEnqueueResult 0 0 (Queue.size (queue s)) (produced s), s).
Proof. reflexivity. Qed.

(** With a count of at least 1 the first attempt is made. *)
Lemma addJobs_loop_first_attempt fuel count s :
  js_ge count (Num 1) = true ->
  addJobs_loop (S fuel) count 0 0 0 s =
    if Queue.size (queue s) >=? Queue.maxSize (queue s)
    then Some (0, 1, reject_pass s)
    else addJobs_loop fuel count 1 1 0 (accept_pass s).
Proof.
  intros H. rewrite addJobs_loop_S.
  assert (js_lt (Num 0) count = true) as ->; [|reflexivity].
  destruct count as [|z| |]; try discriminate; try reflexivity.
  unfold js_ge, js_lt in *. apply negb_true_iff in H.
  apply Z.ltb_ge in H. apply Z.ltb_lt. lia.
Qed.

(** C7.  A non-numeric [count] is not clamped: [Number] gives [NaN],
    [Math.max(1, NaN)] is [NaN], the count handed to the batch loop is not
    [>= 1] and the loop makes no attempt at all, for the GET form and for
    the POST form alike. *)
Theorem C7_non_numeric_count_not_clamped (t0 : Z) :
  let g := GET "/enqueue?count=abc" [("count", "abc")] 0 in
  let p := POST "/enqueue" (BodyCount (VStr "abc")) 0 in
  get_count g = NaN /\ post_count p = NaN /\
  js_ge (get_count g) (Num 1) = false /\
  handle g (boot 20 t0) = (EnqueueJson (mkEnqueueResult 0 0 0 0), boot 20 t0) /\
  handle p (boot 20 t0) = (EnqueueJson (mkEnqueueResult 0 0 0 0), boot 20 t0).
Proof. vm_compute. repeat split. Qed.

(** The [set] action leaves the pending timers alone: a wait already
    scheduled keeps the delay it was given. *)
Lemma control_set_timers (v : jsval) (s : State) :
  timers (control (VStr "set") v s) = timers s.
Proof.
  unfold control. cbn [String.eqb Ascii.eqb Bool.eqb].
  destruct (truthy v); reflexivity.
Qed.

(** The next idle poll is scheduled with the value stored at that time. *)
Lemma consume_idle_uses_current_delay (s : State) :
  running s = true -> Queue.items (queue s) = [] ->
  timers (consume s) = timers s ++ [Poll (consumePollMs s)].
Proof.
  intros Hr He. unfold consume, Queue.shift. rewrite Hr, He. reflexivity.
Qed.

Lemma control_set_numeric (v : jsval) (s : State) :
  truthy v = true -> Number v <> NaN ->
  js_ge (consumePollMs (control (VStr "set") v s)) (Num 1) = true.
Proof.
  intros Ht Hn. unfold control. cbn [String.eqb Ascii.eqb Bool.eqb].
  rewrite Ht. cbn [consumePollMs set_consumePollMs].
  apply clamp_ge_one. exact Hn.
Qed.

(** C8.  A non-numeric [consumeMs] is not clamped: the stored poll interval
    becomes [NaN], which is not [>= 1]. *)
Theorem C8_non_numeric_consumeMs_not_clamped (t0 : Z) :
  let r := GET "/control?action=set&consumeMs=abc"
               [("action", "set"); ("consumeMs", "abc")] 0 in
  consumePollMs (step (boot 20 t0) (Http r)) = NaN /\
  js_ge (consumePollMs (step (boot 20 t0) (Http r))) (Num 1) = false /\
  (handle r (boot 20 t0)).1 = ControlJson true NaN.
Proof. vm_compute. repeat split. Qed.

(** ** Pause and resume *)

Lemma resume_when_running (v : jsval) (s : State) :
  running s = true -> control (VStr "resume") v s = s.
Proof.
  intros H. unfold control. cbn [String.eqb Ascii.eqb Bool.eqb].
  rewrite H. reflexivity.
Qed.

Lemma consume_running (s : State) : running (consume s) = running s.
Proof.
  unfold consume. destruct (running s) eqn:E; cbn [negb]; [|exact E].
  destruct (Queue.shift (queue s)) as [[j|] q']; exact E.
Qed.

Lemma resume_twice (v w : jsval) (s : State) :
  control (VStr "resume") w (control (VStr "resume") v s)
  = control (VStr "resume") v s.
Proof.
  apply resume_when_running.
  unfold control. cbn [String.eqb Ascii.eqb Bool.eqb].
  destruct (running s) eqn:E; cbn [negb]; [exact E|].
  rewrite consume_running. reflexivity.
Qed.

(** C10.  A pause followed by a resume while the timer of the running
    chain is still pending starts a second chain of [consume] calls: one
    timer is pending after start-up, two after pause and resume, and with
    two items queued both are then in flight at once. *)
Theorem C10_pause_resume_starts_second_loop (t0 : Z) :
  let pause := Http (GET "/control?action=pause" [("action", "pause")] 0) in
  let resume := Http (GET "/control?action=resume" [("action", "resume")] 0) in
  let enqueue2 := Http (GET "/enqueue?count=2" [("count", "2")] 0) in
  active_loops (boot 20 t0) = 1%nat /\
  timers (run (boot 20 t0) [pause; resume]) = [Poll (Num 50); Poll (Num 50)] /\
  active_loops (run (boot 20 t0) [pause; resume]) = 2%nat /\
  inflight (run (boot 20 t0) [enqueue2; pause; resume; Fire 0]) = 2.
Proof. vm_compute. repeat split. Qed.

(** ** Proof principles for the handlers *)

Section Principles.

Variable P : State -> Prop.

Lemma addJobs_loop_preserves fuel :
  (forall x, P x -> Queue.size (queue x) < Queue.maxSize (queue x) ->
             P (accept_pass x)) ->
  (forall x, P x -> P (reject_pass x)) ->
  forall count i a r s a' r' s',
    P s -> addJobs_loop fuel count i a r s = Some (a', r', s') -> P s'.
Proof.
  intros Hacc Hrej.
  induction fuel as [|fuel IH]; intros count i a r s a' r' s' Hs Hrun.
  - discriminate.
  - rewrite addJobs_loop_S in Hrun.
    destruct (js_lt (Num i) count).
    + destruct (Z.geb_spec (Queue.size (queue s)) (Queue.maxSize (queue s)))
        as [Hge|Hlt].
      * inversion Hrun; subst. apply Hrej, Hs.
      * eapply IH; [|exact Hrun]. apply Hacc; [exact Hs | exact Hlt].
    + inversion Hrun; subst. exact Hs.
Qed.

Lemma addJobs_preserves count s :
  (forall x, P x -> Queue.size (queue x) < Queue.maxSize (queue x) ->
             P (accept_pass x)) ->
  (forall x, P x -> P (reject_pass x)) ->
  P s -> P (addJobs count s).2.
Proof.
  intros Hacc Hrej Hs.
  destruct (addJobs_returns count s) as (a & r & s' & Hloop & ->).
  cbn [snd]. eapply addJobs_loop_preserves; eauto.
Qed.

(** The request listener ends in the given state, in the state left by the
    [/events] branch, by the [/control] branch (reached under the routing
    conditions spelled out) or by a call of [addJobs]. *)
Lemma handle_cases r s :
  P s ->
  P (events_handler (res r) s) ->
  (String.eqb (method r) "OPTIONS" = false ->
   String.eqb (url r) "/events" = false ->
   String.prefix "/control" (url r) = true ->
   P (control (searchParams_get "action" (searchParams r))
              (searchParams_get "consumeMs" (searchParams r)) s)) ->
  (forall n, P (addJobs n s).2) ->
  P (handle r s).2.
Proof.
  intros Hs Hev Hctl Hadd. unfold handle.
  destruct (String.eqb (method r) "OPTIONS") eqn:E1; [exact Hs|].
  destruct (String.eqb (url r) "/events") eqn:E2; [exact Hev|].
  destruct (String.prefix "/control" (url r)) eqn:E3.
  { unfold control_handler. cbn [snd]. apply Hctl; reflexivity. }
  destruct (String.prefix "/enqueue" (url r) && String.eqb (method r) "GET").
  { specialize (Hadd (get_count r)).
    destruct (addJobs (get_count r) s) as [o s']. exact Hadd. }
  destruct (String.prefix "/enqueue" (url r) && String.eqb (method r) "POST").
  { specialize (Hadd (post_count r)).
    destruct (addJobs (post_count r) s) as [o s']. exact Hadd. }
  destruct (String.eqb (url r) "/health"); exact Hs.
Qed.

End Principles.

(** ** Counting *)

Lemma count_if_app {A} (p : A -> bool) (l1 l2 : list A) :
  count_if p (l1 ++ l2) = count_if p l1 + count_if p l2.
Proof. induction l1 as [|x l1 IH]; simpl; [reflexivity | rewrite IH; lia]. Qed.

Lemma count_if_delete {A} (p : A -> bool) (l : list A) : forall k x,
  l !! k = Some x ->
  count_if p (delete k l) = count_if p l - (if p x then 1 else 0).
Proof.
  induction l as [|y l IH]; intros k x H; [discriminate|].
  destruct k as [|k]; simpl in *.
  - inversion H; subst. lia.
  - rewrite (IH k x H). lia.
Qed.

Lemma count_if_nonneg {A} (p : A -> bool) (l : list A) : 0 <= count_if p l.
Proof. induction l as [|x l IH]; simpl; [lia | destruct (p x); lia]. Qed.

(** ** Conservation of items *)

Ltac fields :=
  cbn [queue produced consumed running consumePollMs subscribers conns timers
       now emitted set_queue set_produced set_consumed set_running
       set_consumePollMs set_subscribers set_conns set_timers set_now
       set_emitted] in *.

Lemma conserved_consume s : conserved s -> conserved (consume s).
Proof.
  intros (H1 & H2 & H3). unfold consume.
  destruct (running s); cbn [negb]; [|repeat split; assumption].
  unfold Queue.shift. destruct s as [[[|j rest] m] p c r ms subs cn tm nw em];
    unfold conserved, inflight, Queue.size in *; simpl in *;
    rewrite count_if_app; simpl;
    repeat split; lia.
Qed.

Lemma conserved_accept s :
  Queue.size (queue s) < Queue.maxSize (queue s) ->
  conserved s -> conserved (accept_pass s).
Proof.
  intros Hroom (H1 & H2 & H3).
  unfold accept_pass, sseSend. fields.
  rewrite push_room by exact Hroom. cbn [snd].
  unfold conserved, inflight in *. fields.
  rewrite size_snoc, !count_if_app.
  cbn [count_if is_queued is_backpressure is_processed].
  destruct (queue s) as [l m]; cbn [Queue.items Queue.maxSize] in *.
  repeat split; lia.
Qed.

Lemma conserved_reject s : conserved s -> conserved (reject_pass s).
Proof.
  intros (H1 & H2 & H3).
  unfold reject_pass, sseSend, conserved, inflight in *. fields.
  rewrite !count_if_app.
  cbn [count_if is_queued is_backpressure is_processed].
  repeat split; lia.
Qed.

Lemma conserved_fire k s : conserved s -> conserved (fire k s).
Proof.
  intros H. unfold fire. destruct (timers s !! k) as [t|] eqn:E; [|exact H].
  destruct t as [job|ms].
  - unfold work_done. apply conserved_consume.
    destruct H as (H1 & H2 & H3).
    unfold sseSend, conserved, inflight in *. fields.
    rewrite (count_if_delete _ _ _ _ E), !count_if_app.
    cbn [count_if is_queued is_backpressure is_processed is_work].
    repeat split; lia.
  - apply conserved_consume.
    destruct H as (H1 & H2 & H3).
    unfold conserved, inflight in *. fields.
    rewrite (count_if_delete _ _ _ _ E). cbn [is_work].
    repeat split; lia.
Qed.

Lemma conserved_control a v s : conserved s -> conserved (control a v s).
Proof.
  intros H. unfold control. destruct a as [| | | |a]; try exact H.
  destruct (String.eqb a "pause"); [exact H|].
  destruct (String.eqb a "resume").
  { destruct (negb (running s)); [|exact H].
    apply conserved_consume. exact H. }
  destruct (String.eqb a "set"); [|exact H].
  destruct (truthy v); exact H.
Qed.

Lemma conserved_step s l : conserved s -> conserved (step s l).
Proof.
  intros H. destruct l as [r|k|c|c|dt|]; cbn [step].
  - apply handle_cases.
    + exact H.
    + exact H.
    + intros _ _ _. apply conserved_control, H.
    + intros n. apply addJobs_preserves.
      * intros x Hx Hroom. apply conserved_accept; assumption.
      * apply conserved_reject.
      * exact H.
  - apply conserved_fire, H.
  - exact H.
  - unfold break_conn. destruct (conns s !! c); exact H.
  - exact H.
  - destruct H as (H1 & H2 & H3).
    unfold sigint, sseSend, conserved, inflight in *. fields.
    rewrite !count_if_app.
    cbn [count_if is_queued is_backpressure is_processed].
    repeat split; lia.
Qed.

Lemma conserved_boot cap t0 : conserved (boot cap t0).
Proof. unfold conserved. vm_compute. repeat split. Qed.

Lemma run_snoc s ls l : run s (ls ++ [l]) = step (run s ls) l.
Proof. unfold run. rewrite foldl_app. reflexivity. Qed.

Lemma conserved_run ls : forall s, conserved s -> conserved (run s ls).
Proof.
  induction ls as [|l ls IH]; intros s H; [exact H|].
  apply IH. apply conserved_step, H.
Qed.

(** An attempt on a full queue: the loop counts one rejection, and the
    state left is that of the refused pass. *)
Lemma addJobs_full (s : State) :
  Queue.size (queue s) >= Queue.maxSize (queue s) ->
  addJobs (Num 1) s
  = (mkEnqueueResult 0 1 (Queue.size (queue s)) (produced s + 1), reject_pass s).
Proof.
  intros H. unfold addJobs, addJobs_fuel.
  rewrite addJobs_loop_first_attempt by reflexivity.
  destruct (Z.geb_spec (Queue.size (queue s)) (Queue.maxSize (queue s)));
    [reflexivity | lia].
Qed.

(** C2 (as amended).  In every state the program reaches in which no
    enqueue attempt has been refused, [produced - consumed] is the size of
    the queue plus the number of items dequeued and still being processed;
    [produced] counts the accepted items, one [queued] event each, and
    [consumed] counts the completed items, one [processed] event each. *)
Theorem C2_conservation (cap t0 : Z) (ls : list Label) :
  count_if is_backpressure (emitted (run (boot cap t0) ls)) = 0 ->
  let s := run (boot cap t0) ls in
  produced s - consumed s = Queue.size (queue s) + inflight s /\
  produced s = count_if is_queued (emitted s) /\
  consumed s = count_if is_processed (emitted s).
Proof.
  intros Hno s.
  destruct (conserved_run ls (boot cap t0) (conserved_boot cap t0))
    as (H1 & H2 & H3).
  fold s in H1, H2, H3, Hno. repeat split; lia.
Qed.

Lemma C2_conservation_witness :
  let ls := [Http (GET "/enqueue?count=3" [("count", "3")] 0); Fire 0;
             Advance 120; Fire 0] in
  count_if is_backpressure (emitted (run (boot 20 0) ls)) = 0 /\
  let s := run (boot 20 0) ls in
  produced s - consumed s = Queue.size (queue s) + inflight s /\
  produced s = count_if is_queued (emitted s) /\
  consumed s = count_if is_processed (emitted s).
Proof.
  split; [reflexivity |].
  apply (C2_conservation 20 0
           [Http (GET "/enqueue?count=3" [("count", "3")] 0); Fire 0;
            Advance 120; Fire 0]).
  reflexivity.
Defined.

(** C2, the claim as written: with the consumer running and one item
    dequeued and being processed, nothing has been refused or lost, and
    [produced - consumed] is 1 while the queue is empty. *)
Lemma C2_item_in_flight_breaks_equation :
  let s := run (boot 20 0) [Http (GET "/enqueue" [] 0); Fire 0] in
  running s = true /\
  count_if is_backpressure (emitted s) = 0 /\
  timers s = [Work (mkJob 1 0)] /\
  produced s - consumed s <> Queue.size (queue s).
Proof. vm_compute. repeat split. discriminate. Qed.

(** ** Pausing *)

Lemma paused_since_refl s : running s = false -> paused_since s s.
Proof.
  intros H. unfold paused_since. repeat split; try lia; [exact H|].
  exists []. rewrite app_nil_r. reflexivity.
Qed.

Lemma consume_paused s : running s = false -> consume s = s.
Proof. intros H. unfold consume. rewrite H. reflexivity. Qed.

Lemma paused_since_accept s0 s :
  Queue.size (queue s) < Queue.maxSize (queue s) ->
  paused_since s0 s -> paused_since s0 (accept_pass s).
Proof.
  intros Hroom (H1 & H2 & H3 & H4 & tail & H5).
  unfold accept_pass, sseSend. fields.
  rewrite push_room by exact Hroom. cbn [snd].
  unfold paused_since, inflight in *. fields.
  rewrite count_if_app. cbn [count_if is_processed Queue.items].
  repeat split; try lia; [exact H1|].
  eexists. rewrite H5, <- app_assoc. reflexivity.
Qed.

Lemma paused_since_reject s0 s :
  paused_since s0 s -> paused_since s0 (reject_pass s).
Proof.
  intros (H1 & H2 & H3 & H4 & tail & H5).
  unfold reject_pass, sseSend, paused_since, inflight in *. fields.
  rewrite count_if_app. cbn [count_if is_processed].
  repeat split; try lia; [exact H1|].
  exists tail. exact H5.
Qed.

Lemma paused_since_fire s0 s k :
  paused_since s0 s -> paused_since s0 (fire k s).
Proof.
  intros H. unfold fire. destruct (timers s !! k) as [t|] eqn:E; [|exact H].
  destruct H as (H1 & H2 & H3 & H4 & tail & H5).
  destruct t as [job|ms].
  - unfold work_done. rewrite consume_paused by exact H1.
    unfold sseSend, paused_since, inflight in *. fields.
    rewrite (count_if_delete _ _ _ _ E), count_if_app.
    cbn [count_if is_processed is_work].
    repeat split; try lia; [exact H1|].
    exists tail. exact H5.
  - rewrite consume_paused by exact H1.
    unfold paused_since, inflight in *. fields.
    rewrite (count_if_delete _ _ _ _ E). cbn [is_work].
    repeat split; try lia; [exact H1|].
    exists tail. exact H5.
Qed.

Lemma paused_since_control s0 s a v :
  match a with VStr x => String.eqb x "resume" | _ => false end = false ->
  paused_since s0 s -> paused_since s0 (control a v s).
Proof.
  intros Hnr H. unfold control. destruct a as [| | | |a]; try exact H.
  rewrite Hnr.
  destruct (String.eqb a "pause").
  { destruct H as (H1 & H2 & H3 & H4 & H5). repeat split; assumption. }
  destruct (String.eqb a "set"); [|exact H].
  destruct (truthy v); [|exact H].
  destruct H as (H1 & H2 & H3 & H4 & H5). repeat split; assumption.
Qed.

Lemma paused_since_step s0 s l :
  is_resume l = false ->
  paused_since s0 s -> paused_since s0 (step s l).
Proof.
  intros Hl H. destruct l as [r|k|c|c|dt|]; cbn [step].
  - apply handle_cases.
    + exact H.
    + destruct H as (H1 & H2 & H3 & H4 & H5). repeat split; assumption.
    + intros E1 E2 E3. apply paused_since_control; [|exact H].
      cbn [is_resume] in Hl. rewrite E1, E2, E3 in Hl. exact Hl.
    + intros n. apply addJobs_preserves.
      * intros x Hx Hroom. apply paused_since_accept; assumption.
      * apply paused_since_reject.
      * exact H.
  - apply paused_since_fire, H.
  - destruct H as (H1 & H2 & H3 & H4 & H5). repeat split; assumption.
  - unfold break_conn. destruct (conns s !! c); [|exact H].
    destruct H as (H1 & H2 & H3 & H4 & H5). repeat split; assumption.
  - destruct H as (H1 & H2 & H3 & H4 & H5). repeat split; assumption.
  - destruct H as (H1 & H2 & H3 & H4 & tail & H5).
    unfold sigint, sseSend, paused_since, inflight in *. fields.
    rewrite count_if_app. cbn [count_if is_processed].
    repeat split; try lia. exists tail. exact H5.
Qed.

Lemma paused_since_run ls : forall s0 s,
  forallb (fun l => negb (is_resume l)) ls = true ->
  paused_since s0 s -> paused_since s0 (run s ls).
Proof.
  induction ls as [|l ls IH]; intros s0 s Hls H; [exact H|].
  cbn [forallb] in Hls. apply andb_true_iff in Hls as [Hl Hls].
  apply negb_true_iff in Hl.
  cbn [run foldl]. apply IH; [exact Hls|].
  apply paused_since_step; assumption.
Qed.

(** C5 (as amended).  Once [running] is false and as long as no resume
    request is handled, [running] stays false and the consumer takes
    nothing out of the queue, which only grows at its tail; each increment
    of [consumed] comes with one [processed] event and uses up one item
    that was already in flight, so [consumed] rises by at most the number
    of items in flight at the pause, and not at all when none was. *)
Theorem C5_pause (s : State) (ls : list Label) :
  running s = false ->
  forallb (fun l => negb (is_resume l)) ls = true ->
  let s' := run s ls in
  running s' = false /\
  (exists tail, Queue.items (queue s') = Queue.items (queue s) ++ tail) /\
  consumed s' + inflight s' = consumed s + inflight s /\
  count_if is_processed (emitted s') - count_if is_processed (emitted s)
  = consumed s' - consumed s /\
  consumed s <= consumed s' <= consumed s + inflight s /\
  (inflight s = 0 ->
   consumed s' = consumed s /\
   count_if is_processed (emitted s') = count_if is_processed (emitted s)).
Proof.
  intros Hr Hls s'.
  destruct (paused_since_run ls s s Hls (paused_since_refl s Hr))
    as (H1 & H2 & H3 & H4 & H5).
  fold s' in H1, H2, H3, H4, H5.
  pose proof (count_if_nonneg is_work (timers s')) as Hn.
  unfold inflight in *.
  repeat split; try assumption; try lia.
Qed.

Lemma C5_pause_witness :
  running (run (boot 20 0) [req_enqueue "3"; Fire 0; req_control "pause"])
  = false /\
  forallb (fun l => negb (is_resume l))
          [Advance 100; Fire 0; req_enqueue "1"; Fire 0] = true /\
  let s := run (boot 20 0) [req_enqueue "3"; Fire 0; req_control "pause"] in
  let s' := run s [Advance 100; Fire 0; req_enqueue "1"; Fire 0] in
  running s' = false /\
  (exists tail, Queue.items (queue s') = Queue.items (queue s) ++ tail) /\
  consumed s' + inflight s' = consumed s + inflight s /\
  count_if is_processed (emitted s') - count_if is_processed (emitted s)
  = consumed s' - consumed s /\
  consumed s <= consumed s' <= consumed s + inflight s /\
  (inflight s = 0 ->
   consumed s' = consumed s /\
   count_if is_processed (emitted s') = count_if is_processed (emitted s)).
Proof.
  split; [reflexivity |]. split; [reflexivity |].
  apply (C5_pause
           (run (boot 20 0) [req_enqueue "3"; Fire 0; req_control "pause"])
           [Advance 100; Fire 0; req_enqueue "1"; Fire 0]);
    reflexivity.
Defined.

(** C5, the claim as written: an item dequeued before the pause is still
    completed after it, without any resume: [consumed] goes from 0 to 1 and
    a [processed] event is sent. *)
Lemma C5_item_in_flight_completes_after_pause :
  let s := run (boot 20 0) [req_enqueue "1"; Fire 0; req_control "pause"] in
  let s' := run s [Advance 100; Fire 0] in
  running s = false /\ running s' = false /\
  consumed s = 0 /\ consumed s' = 1 /\
  emitted s' = emitted s ++ [Processed 1 100 0].
Proof. vm_compute. repeat split. Qed.

(** ** The fan-out *)

Lemma write_other ch m c d : c <> d -> write d ch m !! c = m !! c.
Proof.
  intros Hne. unfold write.
  destruct (m !! d) as [k|]; [|reflexivity].
  destruct (writable k); [|reflexivity].
  apply lookup_insert_ne. congruence.
Qed.

Lemma try_write_other ch m c d :
  c <> d -> try_write ch m d !! c = m !! c.
Proof. apply write_other. Qed.

Lemma write_closed ch m c : conn_open c m = false -> write c ch m = m.
Proof.
  unfold conn_open, write. destruct (m !! c) as [k|]; [|reflexivity].
  intros ->. reflexivity.
Qed.

Lemma conn_open_same c m m' :
  m' !! c = m !! c -> conn_open c m' = conn_open c m.
Proof. unfold conn_open. intros ->. reflexivity. Qed.

(** A response object that is not open is left as it is by the whole
    iteration. *)
Lemma fanout_closed ch c l : forall m,
  conn_open c m = false -> foldl (try_write ch) m l !! c = m !! c.
Proof.
  induction l as [|d l IH]; intros m H; [reflexivity|].
  cbn [foldl]. destruct (decide (c = d)) as [<-|Hne].
  - unfold try_write. rewrite write_closed by exact H. apply IH, H.
  - rewrite IH.
    + apply try_write_other, Hne.
    + rewrite (conn_open_same c m); [exact H|]. apply try_write_other, Hne.
Qed.

Lemma fanout_absent ch c l : forall m,
  c ∉ l -> foldl (try_write ch) m l !! c = m !! c.
Proof.
  induction l as [|d l IH]; intros m H; [reflexivity|].
  apply not_elem_of_cons in H as [Hne Hl].
  cbn [foldl]. rewrite IH by exact Hl. apply try_write_other, Hne.
Qed.

Lemma write_live ch m c r :
  m !! c = Some (mkConn true r) ->
  write c ch m !! c = Some (mkConn true (r ++ [ch])).
Proof.
  intros H. unfold write. rewrite H. cbn [writable received].
  apply lookup_insert_eq.
Qed.

Lemma try_write_live ch m c r :
  m !! c = Some (mkConn true r) ->
  try_write ch m c !! c = Some (mkConn true (r ++ [ch])).
Proof. apply write_live. Qed.

(** A writable member of a duplicate-free set gets the line exactly once. *)
Lemma fanout_live ch c l : forall m r,
  NoDup l -> c ∈ l -> m !! c = Some (mkConn true r) ->
  foldl (try_write ch) m l !! c = Some (mkConn true (r ++ [ch])).
Proof.
  induction l as [|d l IH]; intros m r Hnd Hin Hm.
  - apply elem_of_nil in Hin. contradiction.
  - apply NoDup_cons in Hnd as [Hd Hnd]. cbn [foldl].
    destruct (decide (c = d)) as [<-|Hne].
    + rewrite fanout_absent by exact Hd. apply try_write_live, Hm.
    + apply elem_of_cons in Hin as [Heq|Hin]; [contradiction|].
      apply IH; [exact Hnd | exact Hin |].
      rewrite try_write_other by exact Hne. exact Hm.
Qed.

Lemma set_delete_gone c l : c ∉ set_delete c l.
Proof.
  unfold set_delete. intros H. apply list_elem_of_filter in H as [Hne _].
  apply Hne. reflexivity.
Qed.

Lemma set_add_NoDup c l : NoDup l -> NoDup (set_add c l).
Proof.
  intros H. unfold set_add. destruct (decide (c ∈ l)) as [Hin|Hout]; [exact H|].
  apply NoDup_app. split; [exact H|]. split; [|apply NoDup_singleton].
  intros x Hx Hx'. apply list_elem_of_singleton in Hx'. subst. contradiction.
Qed.

Lemma set_add_elem c d l : d ∈ set_add c l <-> d = c \/ d ∈ l.
Proof.
  unfold set_add. destruct (decide (c ∈ l)) as [Hin|Hout].
  - split; [intros H; right; exact H|]. intros [->|H]; assumption.
  - rewrite elem_of_app, list_elem_of_singleton. tauto.
Qed.

Lemma new_response_other c d m : c <> d -> new_response d m !! c = m !! c.
Proof.
  intros Hne. unfold new_response. destruct (m !! d); [reflexivity|].
  apply lookup_insert_ne. congruence.
Qed.

(** The [/events] branch touches no response object but the request's. *)
Lemma events_handler_other c d s :
  c <> d -> conns (events_handler d s) !! c = conns s !! c.
Proof.
  intros Hne. unfold events_handler.
  cbn [conns set_subscribers set_conns].
  rewrite !write_other by exact Hne. apply new_response_other, Hne.
Qed.

(** On a new response object it writes exactly the two chunks of the
    snapshot. *)
Lemma events_handler_fresh c s :
  conns s !! c = None ->
  conns (events_handler c s) !! c
  = Some (mkConn true
            [EventField "init";
             Data (Snapshot (produced s) (consumed s) (Queue.size (queue s)))]).
Proof.
  intros H. unfold events_handler.
  cbn [conns set_subscribers set_conns].
  assert (new_response c (conns s) !! c = Some (mkConn true [])) as H0.
  { unfold new_response. rewrite H. apply lookup_insert_eq. }
  rewrite (write_live _ _ _ [EventField "init"]); [reflexivity|].
  rewrite (write_live _ _ _ [] H0). reflexivity.
Qed.

(** ** The initial snapshot *)

Lemma map_live_replicate n e :
  map (fun e => Data (Live e)) (replicate n e) = replicate n (Data (Live e)).
Proof. induction n as [|n IH]; simpl; [reflexivity | rewrite IH; reflexivity]. Qed.

Lemma log_extends_refl c s : log_extends c s s.
Proof.
  intros [w r] H. exists w, []. rewrite H. cbn [received map].
  rewrite app_nil_r. reflexivity.
Qed.

Lemma log_extends_trans c s1 s2 s3 :
  log_extends c s1 s2 -> log_extends c s2 s3 -> log_extends c s1 s3.
Proof.
  intros H12 H23 k Hk.
  destruct (H12 k Hk) as (w & evs & H2).
  destruct (H23 _ H2) as (w' & evs' & H3).
  exists w', (evs ++ evs'). rewrite H3. cbn [received].
  rewrite map_app, app_assoc. reflexivity.
Qed.

Lemma log_extends_same_conns c s s' :
  conns s' = conns s -> log_extends c s s'.
Proof.
  intros Heq [w r] H. exists w, []. rewrite Heq, H. cbn [received map].
  rewrite app_nil_r. reflexivity.
Qed.

Lemma fanout_extends ch c l : forall m k,
  m !! c = Some k ->
  exists w n,
    foldl (try_write ch) m l !! c = Some (mkConn w (received k ++ replicate n ch)).
Proof.
  induction l as [|d l IH]; intros m [w r] Hm.
  - exists w, 0%nat. cbn [foldl replicate received].
    rewrite app_nil_r. exact Hm.
  - cbn [foldl received]. destruct (decide (c = d)) as [<-|Hne].
    + destruct w.
      * destruct (IH (try_write ch m c) _ (try_write_live ch m c r Hm))
          as (w' & n & H).
        exists w', (S n). rewrite H. cbn [received replicate].
        rewrite <- app_assoc. reflexivity.
      * unfold try_write. rewrite write_closed.
        { apply (IH m (mkConn false r) Hm). }
        unfold conn_open. rewrite Hm. reflexivity.
    + apply (IH (try_write ch m d) (mkConn w r)).
      rewrite try_write_other by exact Hne. exact Hm.
Qed.

Lemma log_extends_sseSend c e s : log_extends c s (sseSend e s).
Proof.
  intros k Hk. unfold sseSend. fields.
  destruct (fanout_extends (Data (Live e)) c (subscribers s) _ _ Hk)
    as (w & n & H).
  exists w, (replicate n e). rewrite H, map_live_replicate. reflexivity.
Qed.

Lemma consume_conns s : conns (consume s) = conns s.
Proof.
  unfold consume. destruct (negb (running s)); [reflexivity|].
  destruct (Queue.shift (queue s)) as [[j|] q']; reflexivity.
Qed.

Lemma control_conns a v s : conns (control a v s) = conns s.
Proof.
  unfold control. destruct a as [| | | |a]; try reflexivity.
  destruct (String.eqb a "pause"); [reflexivity|].
  destruct (String.eqb a "resume").
  { destruct (negb (running s)); [|reflexivity].
    rewrite consume_conns. reflexivity. }
  destruct (String.eqb a "set"); [|reflexivity].
  destruct (truthy v); reflexivity.
Qed.

Lemma try_end_lookup m c d :
  forall k, m !! c = Some k ->
  exists w, try_end m d !! c = Some (mkConn w (received k)).
Proof.
  intros [w r] H. unfold try_end.
  destruct (m !! d) as [kd|] eqn:E; [|exists w; exact H].
  destruct (decide (c = d)) as [<-|Hne].
  - exists false. rewrite lookup_insert_eq. congruence.
  - exists w. rewrite lookup_insert_ne by congruence. exact H.
Qed.

Lemma ending_extends c l : forall m k,
  m !! c = Some k ->
  exists w, foldl try_end m l !! c = Some (mkConn w (received k)).
Proof.
  induction l as [|d l IH]; intros m [w r] H.
  - exists w. exact H.
  - cbn [foldl]. destruct (try_end_lookup m c d _ H) as (w' & H').
    apply (IH _ _ H').
Qed.

Lemma log_extends_accept c x : log_extends c x (accept_pass x).
Proof.
  unfold accept_pass.
  eapply log_extends_trans; [|apply log_extends_sseSend].
  apply log_extends_same_conns. reflexivity.
Qed.

Lemma log_extends_reject c x : log_extends c x (reject_pass x).
Proof.
  unfold reject_pass.
  eapply log_extends_trans; [|apply log_extends_sseSend].
  apply log_extends_same_conns. reflexivity.
Qed.

Lemma log_extends_step c s l :
  uses_res c l = false -> log_extends c s (step s l).
Proof.
  intros Hl. destruct l as [r|k|d|d|dt|]; cbn [step].
  - apply handle_cases.
    + apply log_extends_refl.
    + intros k Hk. exists (writable k), [].
      cbn [uses_res] in Hl. apply Nat.eqb_neq in Hl.
      rewrite events_handler_other by congruence.
      rewrite Hk. cbn [map]. rewrite app_nil_r. destruct k; reflexivity.
    + intros _ _ _. apply log_extends_same_conns, control_conns.
    + intros n. apply addJobs_preserves.
      * intros x Hx _. eapply log_extends_trans; [exact Hx|].
        apply log_extends_accept.
      * intros x Hx. eapply log_extends_trans; [exact Hx|].
        apply log_extends_reject.
      * apply log_extends_refl.
  - unfold fire. destruct (timers s !! k) as [[job|ms]|].
    + unfold work_done.
      eapply log_extends_trans; [|apply log_extends_same_conns, consume_conns].
      eapply log_extends_trans; [|apply log_extends_sseSend].
      apply log_extends_same_conns. reflexivity.
    + apply log_extends_same_conns. rewrite consume_conns. reflexivity.
    + apply log_extends_refl.
  - apply log_extends_same_conns. reflexivity.
  - unfold break_conn. destruct (conns s !! d) as [kd|] eqn:E;
      [|apply log_extends_refl].
    intros k Hk. fields. destruct (decide (c = d)) as [<-|Hne].
    + exists false, []. rewrite lookup_insert_eq. cbn [map].
      rewrite app_nil_r. congruence.
    + exists (writable k), []. rewrite lookup_insert_ne by congruence.
      rewrite Hk. cbn [map]. rewrite app_nil_r. destruct k; reflexivity.
  - apply log_extends_same_conns. reflexivity.
  - unfold sigint.
    eapply log_extends_trans;
      [apply (log_extends_same_conns c s (set_running false s)); reflexivity|].
    eapply log_extends_trans; [apply log_extends_sseSend|].
    intros k Hk. fields.
    destruct (ending_extends c
                (subscribers (sseSend (Stopped (produced s) (consumed s)
                                         (Queue.size (queue s)))
                             (set_running false s))) _ _ Hk) as (w & H).
    exists w, []. rewrite H. cbn [map]. rewrite app_nil_r. reflexivity.
Qed.

Lemma log_extends_run c ls : forall s,
  forallb (fun l => negb (uses_res c l)) ls = true ->
  log_extends c s (run s ls).
Proof.
  induction ls as [|l ls IH]; intros s Hls; [apply log_extends_refl|].
  cbn [forallb] in Hls. apply andb_true_iff in Hls as [Hl Hls].
  apply negb_true_iff in Hl. cbn [run foldl].
  eapply log_extends_trans; [apply log_extends_step, Hl|].
  apply IH, Hls.
Qed.

Lemma sse_events_snapshot_then_live p c q evs :
  sse_events None (snapshot_then_live p c q evs)
  = ("init"%string, Snapshot p c q)
    :: map (fun e => ("message"%string, Live e)) evs.
Proof.
  unfold snapshot_then_live. cbn [app sse_events default]. f_equal.
  induction evs as [|e evs IH]; [reflexivity|].
  cbn [map sse_events default]. rewrite IH. reflexivity.
Qed.

(** One item requested while there is room: one accepted pass. *)
Lemma addJobs_one_room (s : State) :
  Queue.size (queue s) < Queue.maxSize (queue s) ->
  (addJobs (Num 1) s).2 = accept_pass s.
Proof.
  intros H. unfold addJobs, addJobs_fuel.
  rewrite addJobs_loop_first_attempt by reflexivity.
  destruct (Z.geb_spec (Queue.size (queue s)) (Queue.maxSize (queue s)));
    [lia|].
  rewrite addJobs_loop_S. reflexivity.
Qed.

Lemma step_enqueue_one (s : State) :
  Queue.size (queue s) < Queue.maxSize (queue s) ->
  step s (Http (GET "/enqueue" [] 0)) = accept_pass s.
Proof.
  intros H. rewrite <- (addJobs_one_room s H).
  cbn [step]. unfold handle. cbn -[addJobs].
  change (get_count (GET "/enqueue" [] 0)) with (Num 1).
  destruct (addJobs (Num 1) s) as [o s2]. reflexivity.
Qed.

(** C9.  Registering an observer on a new response object writes to it
    one [init] event carrying [produced], [consumed] and the queue size of
    that moment, and whatever the program does afterwards, the observer's
    stream is that event followed by live events only.  If one item is then
    enqueued while the queue has room (the observer set holding no object
    twice, as a [Set] does), the stream is exactly the [init] event
    followed by the [queued] one. *)
Theorem C9_initial_state_contract (s : State) (c : nat) :
  conns s !! c = None ->
  let snap := Snapshot (produced s) (consumed s) (Queue.size (queue s)) in
  let s1 := step s (req_events c) in
  sse_events None (received_by c s1) = [("init"%string, snap)] /\
  (forall ls,
     forallb (fun l => negb (uses_res c l)) ls = true ->
     exists evs,
       sse_events None (received_by c (run s1 ls))
       = ("init"%string, snap)
         :: map (fun e => ("message"%string, Live e)) evs) /\
  (NoDup (subscribers s) ->
   Queue.size (queue s) < Queue.maxSize (queue s) ->
   sse_events None (received_by c (step s1 (Http (GET "/enqueue" [] 0))))
   = [("init"%string, snap);
      ("message"%string,
       Live (Queued (produced s + 1) (Queue.size (queue s) + 1)))]).
Proof.
  intros Hnew snap s1.
  assert (Hs1 : s1 = events_handler c s) by reflexivity.
  clearbody s1. subst s1.
  pose proof (events_handler_fresh c s Hnew) as Hc1. fold snap in Hc1.
  split; [|split].
  - unfold received_by. rewrite Hc1. reflexivity.
  - intros ls Hls.
    destruct (log_extends_run c ls _ Hls _ Hc1) as (w & evs & H).
    exists evs. unfold received_by. rewrite H. cbn [received].
    apply (sse_events_snapshot_then_live (produced s) (consumed s)
             (Queue.size (queue s)) evs).
  - intros Hnd Hroom.
    rewrite step_enqueue_one by exact Hroom.
    unfold received_by, accept_pass, sseSend.
    cbn [conns set_emitted set_conns set_queue set_produced subscribers].
    erewrite fanout_live; [| | |exact Hc1].
    + cbn [received app sse_events default].
      cbn [queue produced now set_queue set_produced events_handler
           set_subscribers set_conns].
      rewrite push_room by exact Hroom.
      cbn [snd queue produced set_queue set_produced].
      rewrite size_snoc. destruct (queue s); reflexivity.
    + apply set_add_NoDup, Hnd.
    + apply set_add_elem. left. reflexivity.
Qed.

Lemma C9_initial_state_contract_witness :
  conns (run (boot 20 0) [req_enqueue "20"]) !! 1%nat = None /\
  let s := run (boot 20 0) [req_enqueue "20"] in
  let snap := Snapshot (produced s) (consumed s) (Queue.size (queue s)) in
  let s1 := step s (req_events 1) in
  sse_events None (received_by 1 s1) = [("init"%string, snap)] /\
  (forall ls,
     forallb (fun l => negb (uses_res 1 l)) ls = true ->
     exists evs,
       sse_events None (received_by 1 (run s1 ls))
       = ("init"%string, snap)
         :: map (fun e => ("message"%string, Live e)) evs) /\
  (NoDup (subscribers s) ->
   Queue.size (queue s) < Queue.maxSize (queue s) ->
   sse_events None (received_by 1 (step s1 (Http (GET "/enqueue" [] 0))))
   = [("init"%string, snap);
      ("message"%string,
       Live (Queued (produced s + 1) (Queue.size (queue s) + 1)))]).
Proof.
  split; [vm_compute; reflexivity |].
  apply (C9_initial_state_contract (run (boot 20 0) [req_enqueue "20"]) 1%nat).
  vm_compute; reflexivity.
Defined.

(** The scenario of C9 evaluated: register, then enqueue one item. *)
Example register_then_enqueue :
  sse_events None
    (received_by 1 (run (boot 20 0) [req_events 1; Http (GET "/enqueue" [] 0)]))
  = [("init"%string, Snapshot 0 0 0); ("message"%string, Live (Queued 1 1))].
Proof. vm_compute. reflexivity. Qed.

(** ** Stale observers *)

Lemma consume_subscribers s : subscribers (consume s) = subscribers s.
Proof.
  unfold consume. destruct (negb (running s)); [reflexivity|].
  destruct (Queue.shift (queue s)) as [[j|] q']; reflexivity.
Qed.

Lemma control_subscribers a v s : subscribers (control a v s) = subscribers s.
Proof.
  unfold control. destruct a as [| | | |a]; try reflexivity.
  destruct (String.eqb a "pause"); [reflexivity|].
  destruct (String.eqb a "resume").
  { destruct (negb (running s)); [|reflexivity].
    rewrite consume_subscribers. reflexivity. }
  destruct (String.eqb a "set"); [|reflexivity].
  destruct (truthy v); reflexivity.
Qed.

(** No transition other than the [close] event of its own request takes an
    observer out of the set. *)
Lemma step_keeps_subscriber c s l :
  is_close c l = false -> c ∈ subscribers s -> c ∈ subscribers (step s l).
Proof.
  intros Hl Hc. destruct l as [r|k|d|d|dt|]; cbn [step].
  - apply (handle_cases (fun x => c ∈ subscribers x)).
    + exact Hc.
    + unfold events_handler. cbn [subscribers set_subscribers].
      apply set_add_elem. right. exact Hc.
    + intros _ _ _. rewrite control_subscribers. exact Hc.
    + intros n. apply addJobs_preserves; [| |exact Hc].
      * intros x Hx _. exact Hx.
      * intros x Hx. exact Hx.
  - unfold fire. destruct (timers s !! k) as [[job|ms]|]; [| |exact Hc].
    + unfold work_done. rewrite consume_subscribers. exact Hc.
    + rewrite consume_subscribers. exact Hc.
  - cbn [is_close] in Hl. apply Nat.eqb_neq in Hl.
    cbn [subscribers set_subscribers]. unfold set_delete.
    apply list_elem_of_filter. split; [congruence | exact Hc].
  - unfold break_conn. destruct (conns s !! d); exact Hc.
  - exact Hc.
  - exact Hc.
Qed.

Lemma run_keeps_subscriber c ls : forall s,
  forallb (fun l => negb (is_close c l)) ls = true ->
  c ∈ subscribers s -> c ∈ subscribers (run s ls).
Proof.
  induction ls as [|l ls IH]; intros s Hls Hc; [exact Hc|].
  cbn [forallb] in Hls. apply andb_true_iff in Hls as [Hl Hls].
  apply negb_true_iff in Hl. cbn [run foldl].
  apply (IH _ Hls). apply step_keeps_subscriber; assumption.
Qed.

(** C6 (as amended).  A broadcast leaves the observer set as it is.  An
    observer whose connection is already closed is written nothing and is
    not dropped; every writable observer of the set receives the line
    once.  After the broadcast the observers stay in the set through every
    request, timer and signal: an observer leaves it only when the [close]
    event of its own request is handled. *)
Theorem C6_stale_observer (s : State) (e : Event) :
  let s' := sseSend e s in
  subscribers s' = subscribers s /\
  (forall c, stale c s = true -> conns s' !! c = conns s !! c) /\
  (forall d r, NoDup (subscribers s) -> d ∈ subscribers s ->
     conns s !! d = Some (mkConn true r) ->
     conns s' !! d = Some (mkConn true (r ++ [Data (Live e)]))) /\
  (forall c ls, c ∈ subscribers s ->
     forallb (fun l => negb (is_close c l)) ls = true ->
     c ∈ subscribers (run s' ls)) /\
  (forall c x, c ∉ subscribers (step x (Close c))).
Proof.
  intros s'. unfold s', sseSend.
  cbn [subscribers conns set_emitted set_conns]. repeat split.
  - intros c Hc. apply fanout_closed. unfold stale in Hc.
    apply negb_true_iff in Hc. exact Hc.
  - intros d r Hnd Hin Hd. apply fanout_live; assumption.
  - intros c ls Hc Hls. apply run_keeps_subscriber; assumption.
  - intros c x. cbn [step subscribers set_subscribers]. apply set_delete_gone.
Qed.

Lemma C6_stale_observer_witness :
  let s := run (boot 20 0) [req_events 1; req_events 2; Break 1] in
  let s' := sseSend (Queued 1 1) s in
  stale 1 s = true /\
  conns s' !! 1%nat = conns s !! 1%nat /\
  conns s' !! 2%nat
  = Some (mkConn true ([EventField "init"; Data (Snapshot 0 0 0)]
                       ++ [Data (Live (Queued 1 1))])) /\
  (1%nat ∈ subscribers (run s' [req_enqueue "2"; Fire 0; Close 2; Sigint])) /\
  (1%nat ∉ subscribers (step s' (Close 1))).
Proof.
  cbn zeta.
  destruct (C6_stale_observer
              (run (boot 20 0) [req_events 1; req_events 2; Break 1])
              (Queued 1 1)) as (_ & H2 & H3 & H4 & H5).
  split; [reflexivity |].
  split; [apply H2; reflexivity |].
  split.
  - apply H3.
    + vm_compute. repeat constructor; intros H; inversion H as [|? ? ? H']; inversion H'.
    + vm_compute. apply elem_of_cons. right. apply elem_of_cons. left. reflexivity.
    + vm_compute. reflexivity.
  - split; [|apply H5].
    apply H4; [|reflexivity].
    vm_compute. apply elem_of_cons. left. reflexivity.
Defined.

(** C6, the claim as written: observer 1 has gone away, a [queued] event is
    broadcast, nothing reaches it, and it is still a member of the observer
    set after the broadcast. *)
Lemma C6_failing_observer_stays_subscribed :
  let s := run (boot 20 0) [req_events 1; Break 1] in
  stale 1 s = true /\
  received_by 1 (sseSend (Queued 1 1) s) = received_by 1 s /\
  subscribers (sseSend (Queued 1 1) s) = [1%nat] /\
  subscribers (step s (req_enqueue "1")) = [1%nat].
Proof. vm_compute. repeat split. Qed.

(** * Further properties of the code *)

(** ** Filling and draining the queue *)

Lemma Z_to_nat_room (m : Z) (n : nat) :
  Z.of_nat n < m -> Z.to_nat (m - Z.of_nat n) = S (Z.to_nat (m - Z.of_nat (S n))).
Proof. intros H. lia. Qed.

Lemma calls_pushes xs : forall l m,
  let r := Queue.calls (Queue.mk l m) (Queue.pushes xs) in
  Queue.items r.2 = l ++ take (Z.to_nat (m - Z.of_nat (length l))) xs /\
  Queue.accepted (Queue.pushes xs) r.1
  = take (Z.to_nat (m - Z.of_nat (length l))) xs /\
  Queue.maxSize r.2 = m.
Proof.
  induction xs as [|x xs IH]; intros l m.
  - cbn. rewrite take_nil, app_nil_r. repeat split.
  - cbn zeta. unfold Queue.pushes. cbn [map]. rewrite calls_cons.
    cbn [fst snd Queue.call]. unfold Queue.push, Queue.size.
    cbn [Queue.items Queue.maxSize].
    destruct (Z.geb_spec (Z.of_nat (length l)) m) as [Hge|Hlt];
      cbn [fst snd Queue.accepted].
    + specialize (IH l m). cbn zeta in IH. unfold Queue.pushes in IH.
      destruct IH as (I1 & I2 & I3).
      replace (Z.to_nat (m - Z.of_nat (length l))) with 0%nat in * by lia.
      rewrite I1, I2, I3. destruct xs; repeat split.
    + specialize (IH (l ++ [x]) m). cbn zeta in IH. unfold Queue.pushes in IH.
      destruct IH as (I1 & I2 & I3).
      rewrite length_app in I1, I2. cbn [length] in I1, I2.
      replace (length l + 1)%nat with (S (length l)) in I1, I2 by lia.
      rewrite (Z_to_nat_room m (length l) Hlt). cbn [take].
      rewrite I1, I2, I3, <- app_assoc. repeat split.
Qed.

(** X1.  Pushing the items [xs] one after the other on a new queue stores
    the first [maxSize] of them, in order, and refuses all the others;
    nothing is stored when [maxSize] is zero or negative. *)
Theorem queue_fill (cap : Z) (xs : list Job) :
  let r := Queue.calls (Queue.new cap) (Queue.pushes xs) in
  Queue.items r.2 = take (Z.to_nat cap) xs /\
  Queue.accepted (Queue.pushes xs) r.1 = take (Z.to_nat cap) xs /\
  Queue.size r.2 = Z.min (Z.of_nat (length xs)) (Z.max 0 cap).
Proof.
  intros r. destruct (calls_pushes xs [] cap) as (H1 & H2 & H3).
  fold (Queue.new cap) in H1, H2. fold r in H1, H2.
  cbn [length app] in H1, H2. rewrite Z.sub_0_r in H1, H2.
  repeat split; [exact H1 | exact H2 |].
  unfold Queue.size. rewrite H1, length_take. lia.
Qed.

(** X2.  Calling [shift] [n] times on a queue holding [l] hands out the
    first [n] items of [l] in order, then [undefined] for every call made
    on the emptied queue, and leaves the items of [l] after the [n]-th. *)
Theorem queue_drain (n : nat) : forall (l : list Job) (m : Z),
  Queue.calls (Queue.mk l m) (replicate n Queue.Shift)
  = (map Queue.RShift (map Some (take n l) ++ replicate (n - length l) None),
     Queue.mk (drop n l) m).
Proof.
  induction n as [|n IH]; intros l m.
  - cbn. rewrite drop_0. reflexivity.
  - cbn [replicate]. rewrite calls_cons. cbn [Queue.call]. unfold Queue.shift.
    cbn [Queue.items Queue.maxSize].
    destruct l as [|x l]; cbn [fst snd]; rewrite IH; cbn.
    + rewrite take_nil, drop_nil. cbn. rewrite Nat.sub_0_r. reflexivity.
    + reflexivity.
Qed.

(** ** Proof principles for the transitions *)

Section StepPrinciple.

Variable P : State -> Prop.

Hypothesis P_events : forall s c, P s -> P (events_handler c s).
Hypothesis P_control : forall s a v, P s -> P (control a v s).
Hypothesis P_accept : forall s,
  P s -> Queue.size (queue s) < Queue.maxSize (queue s) -> P (accept_pass s).
Hypothesis P_reject : forall s, P s -> P (reject_pass s).
Hypothesis P_fire : forall s k, P s -> P (fire k s).
Hypothesis P_close : forall s c,
  P s -> P (set_subscribers (set_delete c (subscribers s)) s).
Hypothesis P_break : forall s c, P s -> P (break_conn c s).
Hypothesis P_advance : forall s dt, P s -> P (set_now (now s + dt) s).
Hypothesis P_sigint : forall s, P s -> P (sigint s).

Lemma step_preserves s l : P s -> P (step s l).
Proof.
  intros H. destruct l as [r|k|c|c|dt|]; cbn [step]; auto.
  apply handle_cases; auto.
  intros n. apply addJobs_preserves; auto.
Qed.

Lemma run_preserves ls : forall s, P s -> P (run s ls).
Proof.
  induction ls as [|l ls IH]; intros s H; [exact H|].
  cbn [run foldl]. apply IH, step_preserves, H.
Qed.

End StepPrinciple.

(** [fire] is either nothing, or the removal of a [Poll] timer followed by
    [consume], or the completion of an item followed by [consume]. *)
Lemma fire_cases (P : State -> Prop) k s :
  P s ->
  (forall ms, timers s !! k = Some (Poll ms) ->
     P (consume (set_timers (delete k (timers s)) s))) ->
  (forall job, timers s !! k = Some (Work job) ->
     P (work_done job (set_timers (delete k (timers s)) s))) ->
  P (fire k s).
Proof.
  intros H0 Hp Hw. unfold fire.
  destruct (timers s !! k) as [[job|ms]|] eqn:E;
    [apply (Hw job eq_refl) | apply (Hp ms eq_refl) | exact H0].
Qed.

(** ** What [addJobs] does to the state *)

Lemma accept_pass_effect s :
  Queue.size (queue s) < Queue.maxSize (queue s) ->
  Queue.items (queue (accept_pass s))
  = Queue.items (queue s) ++ [mkJob (produced s + 1) (now s)] /\
  produced (accept_pass s) = produced s + 1 /\
  (consumed (accept_pass s), running (accept_pass s), timers (accept_pass s),
   subscribers (accept_pass s), now (accept_pass s),
   consumePollMs (accept_pass s))
  = (consumed s, running s, timers s, subscribers s, now s, consumePollMs s).
Proof.
  intros H. unfold accept_pass, sseSend. fields.
  rewrite push_room by exact H. repeat split.
Qed.

Lemma room_accept s :
  Queue.size (queue s) < Queue.maxSize (queue s) ->
  room (accept_pass s) = room s - 1.
Proof.
  intros H. destruct (accept_pass_room s H) as [Hm Hs].
  unfold room. rewrite Hm, Hs. lia.
Qed.

Lemma addJobs_loop_account fuel : forall count i a r s a' r' s',
  addJobs_loop fuel count i a r s = Some (a', r', s') ->
  exists n : nat,
    a' = a + Z.of_nat n /\ Z.of_nat n <= room s /\
    (r' = r \/ r' = r + 1 /\ Queue.size (queue s') >= Queue.maxSize (queue s')) /\
    Queue.items (queue s')
    = Queue.items (queue s) ++ new_jobs (produced s) (now s) n /\
    Queue.maxSize (queue s') = Queue.maxSize (queue s) /\
    produced s' = produced s + Z.of_nat n + (r' - r) /\
    (consumed s', running s', timers s', subscribers s', now s', consumePollMs s')
    = (consumed s, running s, timers s, subscribers s, now s, consumePollMs s).
Proof.
  induction fuel as [|fuel IH]; intros count i a r s a' r' s' H; [discriminate|].
  rewrite addJobs_loop_S in H.
  destruct (js_lt (Num i) count).
  - destruct (Z.geb_spec (Queue.size (queue s)) (Queue.maxSize (queue s)))
      as [Hge|Hlt].
    + inversion H; subst. exists 0%nat. unfold room, reject_pass, sseSend. fields.
      cbn [new_jobs]. rewrite app_nil_r.
      repeat split; lia.
    + destruct (IH _ _ _ _ _ _ _ _ H)
        as (n & Ha & Hn & Hr & Hi & Hm & Hp & Hrest).
      destruct (accept_pass_effect s Hlt) as (Ei & Ep & Erest).
      destruct (accept_pass_room s Hlt) as [Em _].
      rewrite (room_accept s Hlt) in Hn.
      exists (S n). rewrite Hi, Ei, Hm, Em, Hp, Ep, Hrest, Erest.
      inversion Erest as [[E1 E2 E3 E4 E5 E6]].
      cbn [new_jobs]. rewrite <- app_assoc. cbn [app].
      repeat split; lia.
  - inversion H; subst. exists 0%nat. cbn [new_jobs]. rewrite app_nil_r.
    unfold room. repeat split; lia.
Qed.

Lemma new_jobs_ids p t n : map job_id (new_jobs p t n) = ids_from p n.
Proof.
  revert p. induction n as [|n IH]; intros p; [reflexivity|].
  cbn [new_jobs ids_from map job_id]. rewrite IH. reflexivity.
Qed.

Lemma new_jobs_length p t n : length (new_jobs p t n) = n.
Proof.
  revert p. induction n as [|n IH]; intros p; [reflexivity|].
  cbn [new_jobs length]. rewrite IH. reflexivity.
Qed.

(** X3.  Whatever the count, [addJobs] only appends: the queue afterwards
    is the queue before followed by the accepted items, which carry the
    ids [produced+1], [produced+2], ... in that order; it accepts no more
    items than there was room for, rejects at most one, and rejects one
    only if the queue is full afterwards.  The answer's [accepted],
    [queueSize] and [produced] are those of that state.  The consumer's
    side ([consumed], [running], the pending timers) is not touched. *)
Theorem addJobs_accounting (count : jsnum) (s : State) :
  let o := (addJobs count s).1 in
  let s' := (addJobs count s).2 in
  exists (n : nat) (tail : list Job),
    r_accepted o = Z.of_nat n /\ Z.of_nat n <= room s /\
    (r_rejected o = 0 \/
     r_rejected o = 1 /\ Queue.size (queue s') >= Queue.maxSize (queue s')) /\
    Queue.items (queue s') = Queue.items (queue s) ++ tail /\
    map job_id tail = ids_from (produced s) n /\
    r_queueSize o = Queue.size (queue s) + Z.of_nat n /\
    r_produced o = produced s + Z.of_nat n + r_rejected o /\
    produced s' = r_produced o /\
    (consumed s', running s', timers s') = (consumed s, running s, timers s).
Proof.
  intros o s'. subst o s'.
  destruct (addJobs_returns count s) as (a & r & s' & Hloop & ->).
  cbn [fst snd r_accepted r_rejected r_queueSize r_produced].
  destruct (addJobs_loop_account _ _ _ _ _ _ _ _ _ Hloop)
    as (n & Ha & Hn & Hr & Hi & Hm & Hp & Hrest).
  injection Hrest as E1 E2 E3 E4 E5 E6.
  exists n, (new_jobs (produced s) (now s) n).
  repeat split; try lia; try congruence.
  - apply new_jobs_ids.
  - unfold Queue.size. rewrite Hi, length_app, new_jobs_length. lia.
Qed.

Lemma addJobs_loop_num fuel : forall n i a r s a' r' s',
  addJobs_loop fuel (Num n) i a r s = Some (a', r', s') ->
  i <= n ->
  a' = a + Z.min (n - i) (room s) /\
  r' = r + (if room s <? n - i then 1 else 0).
Proof.
  induction fuel as [|fuel IH]; intros n i a r s a' r' s' H Hi; [discriminate|].
  rewrite addJobs_loop_S in H. cbn [js_lt] in H.
  assert (0 <= room s) as Hroom by (unfold room; lia).
  destruct (Z.ltb_spec i n) as [Hlt|Hge].
  - destruct (Z.geb_spec (Queue.size (queue s)) (Queue.maxSize (queue s)))
      as [Hfull|Hfree].
    + inversion H; subst.
      assert (room s = 0) as -> by (unfold room; lia).
      destruct (Z.ltb_spec 0 (n - i)); lia.
    + destruct (IH _ _ _ _ _ _ _ _ H) as [Ha Hr]; [lia|].
      rewrite (room_accept s Hfree) in Ha, Hr.
      split; [lia|].
      rewrite Hr.
      destruct (Z.ltb_spec (room s - 1) (n - (i + 1)));
        destruct (Z.ltb_spec (room s) (n - i)); lia.
  - inversion H; subst.
    destruct (Z.ltb_spec (room s') (n - i)); lia.
Qed.

Lemma addJobs_loop_inf fuel : forall i a r s a' r' s',
  addJobs_loop fuel PosInf i a r s = Some (a', r', s') ->
  a' = a + room s /\ r' = r + 1.
Proof.
  induction fuel as [|fuel IH]; intros i a r s a' r' s' H; [discriminate|].
  rewrite addJobs_loop_S in H. cbn [js_lt] in H.
  destruct (Z.geb_spec (Queue.size (queue s)) (Queue.maxSize (queue s)))
    as [Hfull|Hfree].
  - inversion H; subst. unfold room. lia.
  - destruct (IH _ _ _ _ _ _ _ H) as [Ha Hr].
    rewrite (room_accept s Hfree) in Ha. lia.
Qed.

(** X4.  The counts [addJobs] reports, in closed form, when the count is
    an integer or [Infinity].  For an integer [n] it accepts
    [min(max(0,n), room)] items, where [room] is the free room of the
    queue, and rejects one exactly when [n] exceeds the room; for
    [Infinity] it fills the queue and rejects one. *)
Theorem addJobs_counts (s : State) :
  (forall n : Z,
     r_accepted (addJobs (Num n) s).1 = Z.min (Z.max 0 n) (room s) /\
     r_rejected (addJobs (Num n) s).1 = if room s <? n then 1 else 0) /\
  r_accepted (addJobs PosInf s).1 = room s /\
  r_rejected (addJobs PosInf s).1 = 1.
Proof.
  assert (0 <= room s) as Hroom by (unfold room; lia).
  split; [intros n|].
  - destruct (addJobs_returns (Num n) s) as (a & r & s' & Hloop & ->).
    cbn [fst r_accepted r_rejected].
    destruct (Z.le_gt_cases 0 n) as [Hn|Hn].
    + destruct (addJobs_loop_num _ _ _ _ _ _ _ _ _ Hloop Hn) as [-> ->].
      rewrite Z.sub_0_r. split; [lia | reflexivity].
    + unfold addJobs_fuel in Hloop. rewrite addJobs_loop_S in Hloop.
      cbn [js_lt] in Hloop.
      destruct (Z.ltb_spec 0 n); [lia|]. inversion Hloop; subst.
      destruct (Z.ltb_spec (room s') n); lia.
  - destruct (addJobs_returns PosInf s) as (a & r & s' & Hloop & ->).
    cbn [fst r_accepted r_rejected].
    destruct (addJobs_loop_inf _ _ _ _ _ _ _ _ Hloop) as [-> ->]. lia.
Qed.

(** ** What each operation leaves alone *)

Lemma consume_frame s :
  (produced (consume s), consumed (consume s), running (consume s),
   consumePollMs (consume s), subscribers (consume s), conns (consume s),
   now (consume s), emitted (consume s))
  = (produced s, consumed s, running s, consumePollMs s, subscribers s,
     conns s, now s, emitted s).
Proof.
  unfold consume. destruct (negb (running s)); [reflexivity|].
  destruct (Queue.shift (queue s)) as [[j|] q']; reflexivity.
Qed.

Lemma consume_cases (P : State -> Prop) s :
  (running s = false -> P s) ->
  (forall j rest, running s = true -> Queue.items (queue s) = j :: rest ->
     P (set_timers (timers s ++ [Work j])
          (set_queue (Queue.mk rest (Queue.maxSize (queue s))) s))) ->
  (running s = true -> Queue.items (queue s) = [] ->
     P (set_timers (timers s ++ [Poll (consumePollMs s)]) s)) ->
  P (consume s).
Proof.
  intros Hoff Hjob Hidle. unfold consume.
  destruct (running s); cbn [negb]; [|apply Hoff; reflexivity].
  unfold Queue.shift. destruct (Queue.items (queue s)) as [|j rest] eqn:E.
  - apply Hidle; reflexivity.
  - apply (Hjob j rest); reflexivity.
Qed.

Lemma control_cases (P : State -> Prop) a v s :
  P s ->
  P (set_running false s) ->
  (running s = false -> P (consume (set_running true s))) ->
  (forall x, P (set_consumePollMs (Math_max (Num 1) x) s)) ->
  P (control a v s).
Proof.
  intros H0 Hp Hr Hs. unfold control. destruct a as [| | | |a]; try exact H0.
  destruct (String.eqb a "pause"); [exact Hp|].
  destruct (String.eqb a "resume").
  { destruct (running s) eqn:E; cbn [negb]; [exact H0 | apply Hr; reflexivity]. }
  destruct (String.eqb a "set"); [|exact H0].
  destruct (truthy v); [apply Hs | exact H0].
Qed.

(** ** Invariants of the running program *)

Lemma consume_queue_bound s :
  Queue.maxSize (queue (consume s)) = Queue.maxSize (queue s) /\
  Queue.size (queue (consume s)) <= Queue.size (queue s).
Proof.
  apply consume_cases.
  - intros _. split; [reflexivity | lia].
  - intros j rest _ E. fields. unfold Queue.size. rewrite E. cbn. split; lia.
  - intros _ _. fields. split; [reflexivity | lia].
Qed.

(** X5.  In every state the program reaches, the queue still has the
    capacity it was built with and holds at most that many items, none if
    the capacity is zero or negative: no handler and no timer ever
    overfills it. *)
Theorem capacity_kept (cap t0 : Z) (ls : list Label) :
  let s := run (boot cap t0) ls in
  Queue.maxSize (queue s) = cap /\
  0 <= Queue.size (queue s) <= Z.max 0 cap.
Proof.
  intros s. subst s.
  apply (run_preserves
           (fun s => Queue.maxSize (queue s) = cap /\
                     0 <= Queue.size (queue s) <= Z.max 0 cap)).
  - intros s c H. exact H.
  - intros s a v [Hm Hs]. apply control_cases.
    + split; assumption.
    + split; assumption.
    + intros _. destruct (consume_queue_bound (set_running true s)) as [E1 E2].
      fields. pose proof (size_nonneg (queue (consume (set_running true s)))).
      split; [congruence | lia].
    + intros x. split; assumption.
  - intros s [Hm Hs] Hroom. destruct (accept_pass_room s Hroom) as [E1 E2].
    split; [congruence | lia].
  - intros s H. exact H.
  - intros s k [Hm Hs]. apply fire_cases.
    + split; assumption.
    + intros ms _.
      destruct (consume_queue_bound (set_timers (delete k (timers s)) s))
        as [E1 E2]. fields.
      pose proof (size_nonneg
                    (queue (consume (set_timers (delete k (timers s)) s)))).
      split; [congruence | lia].
    + intros job _. unfold work_done.
      match goal with |- context [consume ?x] =>
        destruct (consume_queue_bound x) as [E1 E2];
        pose proof (size_nonneg (queue (consume x)))
      end.
      unfold sseSend in *. fields.
      split; [congruence | lia].
  - intros s c H. exact H.
  - intros s c H. unfold break_conn. destruct (conns s !! c); exact H.
  - intros s dt H. exact H.
  - intros s H. exact H.
  - vm_compute. repeat split; try discriminate.
    destruct cap; cbn; try discriminate.
Qed.

Lemma consume_keeps_loop s : running (consume s) = true -> timers (consume s) <> [].
Proof.
  apply consume_cases.
  - intros E1 E2. congruence.
  - intros j rest _ _ _. fields. intros E. apply app_eq_nil in E as [_ E].
    discriminate.
  - intros _ _ _. fields. intros E. apply app_eq_nil in E as [_ E].
    discriminate.
Qed.

(** X6.  In every reachable state in which [running] is true, a consumer
    timer is pending: each timer that fires reschedules one, and [resume]
    starts one, so the loop cannot die while the flag says it runs. *)
Theorem loop_alive_while_running (cap t0 : Z) (ls : list Label) :
  running (run (boot cap t0) ls) = true ->
  (1 <= active_loops (run (boot cap t0) ls))%nat.
Proof.
  assert (forall s, (running s = true -> timers s <> []) ->
                    running s = true -> (1 <= active_loops s)%nat) as Hlen.
  { intros s H E. specialize (H E). unfold active_loops.
    destruct (timers s); [congruence | cbn; lia]. }
  apply Hlen.
  apply (run_preserves (fun s => running s = true -> timers s <> [])).
  - intros s c H. exact H.
  - intros s a v H. apply control_cases.
    + exact H.
    + fields. discriminate.
    + intros _. apply consume_keeps_loop.
    + intros x. exact H.
  - intros s H _. exact H.
  - intros s H. exact H.
  - intros s k H. apply fire_cases.
    + exact H.
    + intros ms _. apply consume_keeps_loop.
    + intros job _. apply consume_keeps_loop.
  - intros s c H. exact H.
  - intros s c H. unfold break_conn. destruct (conns s !! c); exact H.
  - intros s dt H. exact H.
  - intros s H. unfold sigint, sseSend. fields. discriminate.
  - vm_compute. discriminate.
Qed.

Lemma loop_alive_while_running_witness :
  running (run (boot 20 0)
             [req_enqueue "2"; Fire 0; req_control "pause"; Fire 0;
              req_control "resume"]) = true /\
  (1 <= active_loops
          (run (boot 20 0)
             [req_enqueue "2"; Fire 0; req_control "pause"; Fire 0;
              req_control "resume"]))%nat.
Proof.
  split; [reflexivity |].
  apply (loop_alive_while_running 20 0
           [req_enqueue "2"; Fire 0; req_control "pause"; Fire 0;
            req_control "resume"]).
  reflexivity.
Defined.

Lemma delay_ok_clamp x : delay_ok (Math_max (Num 1) x) = true.
Proof.
  destruct x as [|z| |]; try reflexivity.
  unfold Math_max, js_lt. destruct (Z.ltb_spec 1 z) as [H|H]; [|reflexivity].
  unfold delay_ok, js_ge, js_lt. destruct (Z.ltb_spec z 1); [lia | reflexivity].
Qed.

(** X7.  In every reachable state the stored poll interval is either [NaN]
    or at least 1, and so is the delay of every pending poll timer: the
    interval is never zero, negative or minus infinity. *)
Theorem poll_delay_never_below_one (cap t0 : Z) (ls : list Label) :
  let s := run (boot cap t0) ls in
  delay_ok (consumePollMs s) = true /\
  Forall (fun t => timer_delay_ok t = true) (timers s).
Proof.
  intros s. subst s.
  assert (Hcons : forall s,
            delay_ok (consumePollMs s) = true /\
            Forall (fun t => timer_delay_ok t = true) (timers s) ->
            delay_ok (consumePollMs (consume s)) = true /\
            Forall (fun t => timer_delay_ok t = true) (timers (consume s))).
  { intros s [H1 H2]. apply consume_cases.
    - intros _. split; assumption.
    - intros j rest _ _. fields. split; [exact H1|].
      apply Forall_app. split; [exact H2|]. repeat constructor.
    - intros _ _. fields. split; [exact H1|].
      apply Forall_app. split; [exact H2|]. repeat constructor. exact H1. }
  apply (run_preserves
           (fun s => delay_ok (consumePollMs s) = true /\
                     Forall (fun t => timer_delay_ok t = true) (timers s))).
  - intros s c H. exact H.
  - intros s a v [H1 H2]. apply control_cases.
    + split; assumption.
    + split; assumption.
    + intros _. apply Hcons. split; assumption.
    + intros x. fields. split; [apply delay_ok_clamp | exact H2].
  - intros s H _. exact H.
  - intros s H. exact H.
  - intros s k [H1 H2]. apply fire_cases.
    + split; assumption.
    + intros ms _. apply Hcons. fields. split; [exact H1|].
      apply Forall_delete, H2.
    + intros job _. unfold work_done. apply Hcons. unfold sseSend. fields.
      split; [exact H1|]. apply Forall_delete, H2.
  - intros s c H. exact H.
  - intros s c H. unfold break_conn. destruct (conns s !! c); exact H.
  - intros s dt H. exact H.
  - intros s H. exact H.
  - vm_compute. split; [reflexivity|]. repeat constructor.
Qed.

(** ** Where the items are *)

Lemma queued_ids_app l1 l2 :
  queued_ids (l1 ++ l2) = queued_ids l1 ++ queued_ids l2.
Proof.
  induction l1 as [|e l1 IH]; [reflexivity|].
  destruct e; cbn [app queued_ids]; rewrite IH; reflexivity.
Qed.

Lemma processed_ids_app l1 l2 :
  processed_ids (l1 ++ l2) = processed_ids l1 ++ processed_ids l2.
Proof.
  induction l1 as [|e l1 IH]; [reflexivity|].
  destruct e; cbn [app processed_ids]; rewrite IH; reflexivity.
Qed.

Lemma work_ids_app l1 l2 : work_ids (l1 ++ l2) = work_ids l1 ++ work_ids l2.
Proof.
  induction l1 as [|t l1 IH]; [reflexivity|].
  destruct t; cbn [app work_ids]; rewrite IH; reflexivity.
Qed.

Lemma work_ids_delete_poll ts : forall k ms,
  ts !! k = Some (Poll ms) -> work_ids (delete k ts) = work_ids ts.
Proof.
  induction ts as [|t ts IH]; intros k ms H; [discriminate|].
  destruct k as [|k].
  - cbn in H. inversion H; subst. reflexivity.
  - change (delete (S k) (t :: ts)) with (t :: delete k ts).
    destruct t; cbn [work_ids]; rewrite (IH k ms H); reflexivity.
Qed.

Lemma work_ids_delete_work ts : forall k job,
  ts !! k = Some (Work job) ->
  exists a b,
    work_ids ts = a ++ job_id job :: b /\ work_ids (delete k ts) = a ++ b.
Proof.
  induction ts as [|t ts IH]; intros k job H; [discriminate|].
  destruct k as [|k].
  - cbn in H. inversion H; subst. exists [], (work_ids ts). split; reflexivity.
  - change (delete (S k) (t :: ts)) with (t :: delete k ts).
    destruct (IH k job H) as (a & b & E1 & E2).
    destruct t as [j|ms]; cbn [work_ids].
    + exists (job_id j :: a), b. rewrite E1, E2. split; reflexivity.
    + exists a, b. split; assumption.
Qed.

(** Moving the head of the queue to the pending callbacks does not change
    the sequence of ids held. *)
Lemma consume_item_ids s :
  work_ids (timers (consume s)) ++ queue_ids (consume s)
  = work_ids (timers s) ++ queue_ids s.
Proof.
  apply consume_cases.
  - reflexivity.
  - intros j rest _ E. unfold queue_ids. fields. rewrite E, work_ids_app.
    cbn. rewrite <- app_assoc. reflexivity.
  - intros _ _. unfold queue_ids. fields. rewrite work_ids_app.
    cbn. rewrite app_nil_r. reflexivity.
Qed.

Lemma StronglySorted_drop_middle (a b : list Z) (x : Z) :
  StronglySorted Z.lt (a ++ x :: b) -> StronglySorted Z.lt (a ++ b).
Proof.
  rewrite !StronglySorted_app, StronglySorted_cons.
  intros (H1 & H2 & H3 & H4). repeat split; [|assumption|assumption].
  intros x1 x2 Hx1 Hx2. apply H1; [exact Hx1|].
  apply elem_of_cons. right. exact Hx2.
Qed.

Lemma Forall_drop_middle {A} (P : A -> Prop) (a b : list A) (x : A) :
  Forall P (a ++ x :: b) -> Forall P (a ++ b).
Proof.
  rewrite !Forall_app, Forall_cons. intros (H1 & H2 & H3). split; assumption.
Qed.

Lemma StronglySorted_snoc_bound (l : list Z) (p : Z) :
  StronglySorted Z.lt l -> Forall (fun i => 1 <= i <= p) l ->
  StronglySorted Z.lt (l ++ [p + 1]).
Proof.
  intros Hs Hb. apply StronglySorted_app_2; [|exact Hs|repeat constructor].
  intros x1 x2 H1 H2. apply list_elem_of_singleton in H2 as ->.
  rewrite Forall_forall in Hb. specialize (Hb x1 H1). lia.
Qed.

Lemma ids_ordered_consume s : ids_ordered_inv s -> ids_ordered_inv (consume s).
Proof.
  unfold ids_ordered_inv. rewrite consume_item_ids.
  pose proof (consume_frame s) as E. injection E as E1 _ _ _ _ _ _ _.
  rewrite E1. tauto.
Qed.

Lemma ids_ordered_run (cap t0 : Z) (ls : list Label) :
  ids_ordered_inv (run (boot cap t0) ls).
Proof.
  apply (run_preserves ids_ordered_inv).
  - intros s c H. exact H.
  - intros s a v H. apply control_cases;
      [exact H | exact H | intros _; apply ids_ordered_consume; exact H
      | intros x; exact H].
  - intros s (H0 & H1 & H2) Hroom. unfold ids_ordered_inv, queue_ids.
    destruct (accept_pass_effect s Hroom) as (Ei & Ep & _).
    rewrite Ei, Ep. change (timers (accept_pass s)) with (timers s).
    rewrite map_app. cbn [map job_id]. rewrite app_assoc.
    split; [lia|]. split.
    + apply StronglySorted_snoc_bound; assumption.
    + apply Forall_app. split.
      * eapply Forall_impl; [exact H2|]. cbn. intros; lia.
      * repeat constructor; lia.
  - intros s (H0 & H1 & H2).
    unfold ids_ordered_inv, reject_pass, sseSend, queue_ids in *.
    fields. split; [lia|]. split; [exact H1|].
    eapply Forall_impl; [exact H2|]. cbn. intros; lia.
  - intros s k (H0 & H1 & H2). apply fire_cases.
    + repeat split; assumption.
    + intros ms E. apply ids_ordered_consume.
      unfold ids_ordered_inv, queue_ids in *. fields.
      rewrite (work_ids_delete_poll _ _ _ E). repeat split; assumption.
    + intros job E. unfold work_done. apply ids_ordered_consume.
      unfold ids_ordered_inv, sseSend, queue_ids in *. fields.
      destruct (work_ids_delete_work _ _ _ E) as (a & b & E1 & E2).
      rewrite E1 in H1, H2. rewrite E2.
      rewrite <- app_assoc in *. cbn [app] in *.
      split; [exact H0|]. split.
      * eapply StronglySorted_drop_middle, H1.
      * eapply Forall_drop_middle, H2.
  - intros s c H. exact H.
  - intros s c H. unfold break_conn. destruct (conns s !! c); exact H.
  - intros s dt H. exact H.
  - intros s H. exact H.
  - vm_compute. split; [discriminate|]. split; constructor.
Qed.

(** X8.  In every reachable state the ids of the items being processed
    followed by the ids of the items in the queue, head first, are strictly
    increasing and lie between 1 and [produced]: ids are unique, and an
    item nearer the tail always has the larger id. *)
Theorem item_ids_increasing (cap t0 : Z) (ls : list Label) :
  let s := run (boot cap t0) ls in
  StronglySorted Z.lt (work_ids (timers s) ++ queue_ids s) /\
  Forall (fun i => 1 <= i <= produced s) (work_ids (timers s) ++ queue_ids s) /\
  NoDup (work_ids (timers s) ++ queue_ids s).
Proof.
  intros s. destruct (ids_ordered_run cap t0 ls) as (H0 & H1 & H2).
  fold s in H0, H1, H2. repeat split; [exact H1 | exact H2 |].
  clear H2. induction H1 as [|x l Hs IH Hx]; constructor; [|exact IH].
  intros Hin. rewrite Forall_forall in Hx. specialize (Hx x Hin). lia.
Qed.

Lemma StronglySorted_lt_NoDup (l : list Z) : StronglySorted Z.lt l -> NoDup l.
Proof.
  induction 1 as [|x l Hs IH Hx]; constructor; [|exact IH].
  intros Hin. rewrite Forall_forall in Hx. specialize (Hx x Hin). lia.
Qed.

Lemma items_accounted_consume s :
  items_accounted_inv s -> items_accounted_inv (consume s).
Proof.
  unfold items_accounted_inv.
  pose proof (consume_frame s) as E. injection E as E1 _ _ _ _ _ _ E8.
  rewrite E1, E8, consume_item_ids. tauto.
Qed.

Lemma items_accounted_run (cap t0 : Z) (ls : list Label) :
  items_accounted_inv (run (boot cap t0) ls).
Proof.
  apply (run_preserves items_accounted_inv).
  - intros s c H. exact H.
  - intros s a v H. apply control_cases;
      [exact H | exact H | intros _; apply items_accounted_consume; exact H
      | intros x; exact H].
  - intros s (H0 & H1 & H2 & H3) Hroom. unfold items_accounted_inv, queue_ids.
    destruct (accept_pass_effect s Hroom) as (Ei & Ep & _).
    rewrite Ei, Ep. change (timers (accept_pass s)) with (timers s).
    unfold accept_pass, sseSend. fields.
    rewrite queued_ids_app, processed_ids_app, map_app.
    cbn [queued_ids processed_ids map job_id]. rewrite app_nil_r.
    split; [lia|]. split; [|split].
    + rewrite H1. unfold queue_ids. rewrite !app_assoc. reflexivity.
    + apply StronglySorted_snoc_bound; assumption.
    + apply Forall_app. split.
      * eapply Forall_impl; [exact H3|]. cbn. intros; lia.
      * repeat constructor; lia.
  - intros s (H0 & H1 & H2 & H3).
    unfold items_accounted_inv, reject_pass, sseSend, queue_ids in *. fields.
    rewrite queued_ids_app, processed_ids_app.
    cbn [queued_ids processed_ids]. rewrite !app_nil_r.
    split; [lia|]. split; [exact H1|]. split; [exact H2|].
    eapply Forall_impl; [exact H3|]. cbn. intros; lia.
  - intros s k (H0 & H1 & H2 & H3). apply fire_cases.
    + repeat split; assumption.
    + intros ms E. apply items_accounted_consume.
      unfold items_accounted_inv, queue_ids in *. fields.
      rewrite (work_ids_delete_poll _ _ _ E). repeat split; assumption.
    + intros job E. unfold work_done. apply items_accounted_consume.
      unfold items_accounted_inv, sseSend, queue_ids in *. fields.
      rewrite queued_ids_app, processed_ids_app.
      cbn [queued_ids processed_ids]. rewrite app_nil_r.
      destruct (work_ids_delete_work _ _ _ E) as (a & b & E1 & E2).
      rewrite E1 in H1. rewrite E2.
      split; [exact H0|]. split; [|split; assumption].
      rewrite H1, <- !app_assoc. apply Permutation_app_head.
      cbn [app]. symmetry. apply Permutation_middle.
  - intros s c H. exact H.
  - intros s c H. unfold break_conn. destruct (conns s !! c); exact H.
  - intros s dt H. exact H.
  - intros s (H0 & H1 & H2 & H3).
    unfold items_accounted_inv, sigint, sseSend, queue_ids in *. fields.
    rewrite queued_ids_app, processed_ids_app.
    cbn [queued_ids processed_ids]. rewrite !app_nil_r.
    repeat split; assumption.
  - vm_compute. split; [discriminate|]. repeat split; constructor.
Qed.

(** X9.  Nothing is lost and nothing is processed twice: in every
    reachable state the ids announced by [queued] events are pairwise
    distinct, and they are, up to order, the ids announced by [processed]
    events together with the ids of the items being processed and of the
    items in the queue, each occurring once. *)
Theorem items_neither_lost_nor_duplicated (cap t0 : Z) (ls : list Label) :
  let s := run (boot cap t0) ls in
  queued_ids (emitted s)
  ≡ₚ processed_ids (emitted s) ++ work_ids (timers s) ++ queue_ids s /\
  NoDup (queued_ids (emitted s)) /\
  NoDup (processed_ids (emitted s) ++ work_ids (timers s) ++ queue_ids s).
Proof.
  intros s. destruct (items_accounted_run cap t0 ls) as (H0 & H1 & H2 & H3).
  fold s in H0, H1, H2, H3.
  pose proof (StronglySorted_lt_NoDup _ H2) as Hnd.
  repeat split; [exact H1 | exact Hnd |].
  rewrite <- H1. exact Hnd.
Qed.

(** ** Runs without a resume *)

Section NoResumePrinciple.

Variable P : State -> Prop.

Hypothesis P_events : forall s c, P s -> P (events_handler c s).
Hypothesis P_control : forall s a v,
  match a with VStr x => String.eqb x "resume" | _ => false end = false ->
  P s -> P (control a v s).
Hypothesis P_accept : forall s,
  P s -> Queue.size (queue s) < Queue.maxSize (queue s) -> P (accept_pass s).
Hypothesis P_reject : forall s, P s -> P (reject_pass s).
Hypothesis P_fire : forall s k, P s -> P (fire k s).
Hypothesis P_close : forall s c,
  P s -> P (set_subscribers (set_delete c (subscribers s)) s).
Hypothesis P_break : forall s c, P s -> P (break_conn c s).
Hypothesis P_advance : forall s dt, P s -> P (set_now (now s + dt) s).
Hypothesis P_sigint : forall s, P s -> P (sigint s).

Lemma step_preserves_no_resume s l :
  is_resume l = false -> P s -> P (step s l).
Proof.
  intros Hl H. destruct l as [r|k|c|c|dt|]; cbn [step]; auto.
  apply handle_cases; auto.
  - intros E1 E2 E3. apply P_control; [|exact H].
    cbn [is_resume] in Hl. rewrite E1, E2, E3 in Hl. exact Hl.
  - intros n. apply addJobs_preserves; auto.
Qed.

Lemma run_preserves_no_resume ls : forall s,
  forallb (fun l => negb (is_resume l)) ls = true -> P s -> P (run s ls).
Proof.
  induction ls as [|l ls IH]; intros s Hls H; [exact H|].
  cbn [forallb] in Hls. apply andb_true_iff in Hls as [Hl Hls].
  apply negb_true_iff in Hl. cbn [run foldl].
  apply IH; [exact Hls|]. apply step_preserves_no_resume; assumption.
Qed.

End NoResumePrinciple.

Lemma control_no_resume_timers a v s :
  match a with VStr x => String.eqb x "resume" | _ => false end = false ->
  timers (control a v s) = timers s /\ emitted (control a v s) = emitted s /\
  queue (control a v s) = queue s.
Proof.
  intros Hnr. unfold control.
  destruct a as [| | | |a]; [repeat split; reflexivity ..|].
  rewrite Hnr.
  destruct (String.eqb a "pause"); [repeat split|].
  destruct (String.eqb a "set"); [|repeat split].
  destruct (truthy v); repeat split.
Qed.

Lemma single_loop_consume s :
  timers s = [] ->
  queued_ids (emitted s) = processed_ids (emitted s) ++ queue_ids s ->
  single_loop_inv (consume s).
Proof.
  intros Ht He. unfold single_loop_inv.
  pose proof (consume_frame s) as E. injection E as _ _ _ _ _ _ _ E8.
  rewrite E8, consume_item_ids, Ht. cbn [work_ids app]. split; [|exact He].
  apply consume_cases; intros; fields; rewrite Ht; cbn; lia.
Qed.

Lemma single_timer {A} (l : list A) k x :
  (length l <= 1)%nat -> l !! k = Some x -> l = [x] /\ delete k l = [].
Proof.
  intros Hlen H. destruct l as [|y [|z l]]; cbn in Hlen; [discriminate| |lia].
  destruct k as [|k]; cbn in H; [|discriminate].
  inversion H; subst. split; reflexivity.
Qed.

Lemma single_loop_step_no_resume s l :
  is_resume l = false -> single_loop_inv s -> single_loop_inv (step s l).
Proof.
  apply (step_preserves_no_resume single_loop_inv).
  - intros x c H. exact H.
  - intros x a v Hnr [H1 H2]. unfold single_loop_inv, queue_ids.
    destruct (control_no_resume_timers a v x Hnr) as (E1 & E2 & E3).
    rewrite E1, E2, E3. split; assumption.
  - intros x [H1 H2] Hroom. unfold single_loop_inv, queue_ids.
    destruct (accept_pass_effect x Hroom) as (Ei & _ & _).
    rewrite Ei. change (timers (accept_pass x)) with (timers x).
    unfold accept_pass, sseSend. fields.
    rewrite queued_ids_app, processed_ids_app, map_app.
    cbn [queued_ids processed_ids map job_id]. rewrite app_nil_r.
    split; [exact H1|]. rewrite H2. unfold queue_ids.
    rewrite !app_assoc. reflexivity.
  - intros x [H1 H2].
    unfold single_loop_inv, reject_pass, sseSend, queue_ids in *. fields.
    rewrite queued_ids_app, processed_ids_app.
    cbn [queued_ids processed_ids]. rewrite !app_nil_r. split; assumption.
  - intros x k [H1 H2]. apply fire_cases.
    + split; assumption.
    + intros ms E. destruct (single_timer _ _ _ H1 E) as [Et Ed].
      apply single_loop_consume; fields; [exact Ed|].
      rewrite H2, Et. reflexivity.
    + intros job E. destruct (single_timer _ _ _ H1 E) as [Et Ed].
      unfold work_done. apply single_loop_consume;
        unfold sseSend, queue_ids in *; fields; [exact Ed|].
      rewrite queued_ids_app, processed_ids_app.
      cbn [queued_ids processed_ids]. rewrite app_nil_r.
      rewrite H2, Et. cbn [work_ids app]. rewrite <- app_assoc. reflexivity.
  - intros x c H. exact H.
  - intros x c H. unfold break_conn. destruct (conns x !! c); exact H.
  - intros x dt H. exact H.
  - intros x [H1 H2].
    unfold single_loop_inv, sigint, sseSend, queue_ids in *. fields.
    rewrite queued_ids_app, processed_ids_app.
    cbn [queued_ids processed_ids]. rewrite !app_nil_r. split; assumption.
Qed.

Lemma resume_action (a : jsval) (v : jsval) (s : State) :
  match a with VStr x => String.eqb x "resume" | _ => false end = true ->
  control a v s = if negb (running s) then consume (set_running true s) else s.
Proof.
  destruct a as [| | | |x]; try discriminate.
  intros H. apply String.eqb_eq in H. subst x. reflexivity.
Qed.

Lemma step_resume s l :
  is_resume l = true ->
  step s l = if negb (running s) then consume (set_running true s) else s.
Proof.
  intros H. destruct l as [r| | | | |]; try discriminate.
  cbn [is_resume] in H. rewrite !andb_true_iff, !negb_true_iff in H.
  destruct H as [[[E1 E2] E3] E4].
  cbn [step]. unfold handle. rewrite E1, E2, E3.
  unfold control_handler. cbn [snd]. apply resume_action, E4.
Qed.

Lemma single_loop_step s l :
  (negb (is_resume l) || running s || (length (timers s) =? 0)%nat) = true ->
  single_loop_inv s -> single_loop_inv (step s l).
Proof.
  intros Hok Hinv. destruct (is_resume l) eqn:Hres.
  - rewrite (step_resume s l Hres). cbn [negb orb] in Hok.
    destruct (running s) eqn:Er; cbn [negb]; [exact Hinv|].
    cbn [orb] in Hok. apply Nat.eqb_eq in Hok.
    destruct Hinv as [_ H2].
    destruct (timers s) as [|t ts] eqn:Et; [|discriminate].
    apply single_loop_consume; fields; [exact Et|].
    rewrite H2. reflexivity.
  - apply single_loop_step_no_resume; assumption.
Qed.

Lemma single_loop_run ls : forall s,
  resumes_when_stopped s ls = true ->
  single_loop_inv s -> single_loop_inv (run s ls).
Proof.
  induction ls as [|l ls IH]; intros s Hls H; [exact H|].
  cbn [resumes_when_stopped] in Hls. apply andb_true_iff in Hls as [Hl Hls].
  cbn [run foldl]. apply (IH _ Hls). apply single_loop_step; assumption.
Qed.

Lemma single_loop_boot cap t0 : single_loop_inv (boot cap t0).
Proof. vm_compute. split; [lia | reflexivity]. Qed.

(** X10.  If every resume request is handled while [running] is true or
    while no timer is pending (in particular if there is no resume at
    all), there is a single consumer loop: at most one timer is pending,
    hence at most one item in flight, and the ids announced by [queued]
    events are, in that very order, those announced by [processed] events,
    then the one in flight, then the queue from its head: items are
    processed in the order in which they were accepted. *)
Theorem single_loop_processes_in_order (cap t0 : Z) (ls : list Label) :
  resumes_when_stopped (boot cap t0) ls = true ->
  let s := run (boot cap t0) ls in
  (active_loops s <= 1)%nat /\
  inflight s <= 1 /\
  queued_ids (emitted s)
  = processed_ids (emitted s) ++ work_ids (timers s) ++ queue_ids s.
Proof.
  intros Hls s.
  destruct (single_loop_run ls _ Hls (single_loop_boot cap t0)) as [H1 H2].
  fold s in H1, H2. unfold active_loops, inflight.
  repeat split; [exact H1 | | exact H2].
  clear H2. clearbody s.
  destruct (timers s) as [|t [|t' l]]; cbn in *;
    [lia | destruct t; cbn; lia | lia].
Qed.

Lemma single_loop_processes_in_order_witness :
  resumes_when_stopped (boot 20 0)
    [req_enqueue "3"; Fire 0; req_control "pause"; Advance 80; Fire 0;
     req_control "resume"; req_enqueue "2"; Fire 0] = true /\
  let s := run (boot 20 0)
             [req_enqueue "3"; Fire 0; req_control "pause"; Advance 80; Fire 0;
              req_control "resume"; req_enqueue "2"; Fire 0] in
  (active_loops s <= 1)%nat /\
  inflight s <= 1 /\
  queued_ids (emitted s)
  = processed_ids (emitted s) ++ work_ids (timers s) ++ queue_ids s.
Proof.
  split; [reflexivity |].
  apply (single_loop_processes_in_order 20 0
           [req_enqueue "3"; Fire 0; req_control "pause"; Advance 80; Fire 0;
            req_control "resume"; req_enqueue "2"; Fire 0]).
  reflexivity.
Defined.

(** A run without any resume request satisfies the condition. *)
Lemma no_resume_is_well_timed ls : forall s,
  forallb (fun l => negb (is_resume l)) ls = true ->
  resumes_when_stopped s ls = true.
Proof.
  induction ls as [|l ls IH]; intros s H; [reflexivity|].
  cbn [forallb] in H. apply andb_true_iff in H as [Hl Hls].
  cbn [resumes_when_stopped]. rewrite Hl, (IH _ Hls). reflexivity.
Qed.

(** ** The observer set *)

Lemma fanout_is_Some ch l m c :
  is_Some (m !! c) -> is_Some (foldl (try_write ch) m l !! c).
Proof.
  intros [k Hk]. destruct (fanout_extends ch c l m k Hk) as (w & n & H).
  rewrite H. eexists. reflexivity.
Qed.

Lemma ending_is_Some l m c :
  is_Some (m !! c) -> is_Some (foldl try_end m l !! c).
Proof.
  intros [k Hk]. destruct (ending_extends c l m k Hk) as (w & H).
  rewrite H. eexists. reflexivity.
Qed.

Lemma write_is_Some ch c d m : is_Some (m !! d) -> is_Some (write c ch m !! d).
Proof.
  intros H. destruct (decide (d = c)) as [->|Hne].
  - unfold write. destruct (m !! c) as [k|] eqn:E;
      [|rewrite E; exact H].
    destruct (writable k); [|rewrite E; exact H].
    rewrite lookup_insert_eq. eexists. reflexivity.
  - rewrite write_other by exact Hne. exact H.
Qed.

Lemma new_response_held c m : is_Some (new_response c m !! c).
Proof.
  unfold new_response. destruct (m !! c) as [k|] eqn:E.
  - rewrite E. eexists. reflexivity.
  - rewrite lookup_insert_eq. eexists. reflexivity.
Qed.

Lemma subscribers_inv_sseSend e s : subscribers_inv s -> subscribers_inv (sseSend e s).
Proof.
  intros [H1 H2]. unfold subscribers_inv, sseSend. fields.
  split; [exact H1|]. intros c Hc. apply fanout_is_Some, H2, Hc.
Qed.

Lemma subscribers_inv_same s s' :
  subscribers s' = subscribers s -> conns s' = conns s ->
  subscribers_inv s -> subscribers_inv s'.
Proof. unfold subscribers_inv. intros -> ->. tauto. Qed.

Lemma subscribers_inv_consume s : subscribers_inv s -> subscribers_inv (consume s).
Proof.
  pose proof (consume_frame s) as E. injection E as _ _ _ _ E5 E6 _ _.
  apply subscribers_inv_same; assumption.
Qed.

Lemma subscribers_inv_run (cap t0 : Z) (ls : list Label) :
  subscribers_inv (run (boot cap t0) ls).
Proof.
  apply (run_preserves subscribers_inv).
  - intros s c [H1 H2]. unfold subscribers_inv. split.
    + apply set_add_NoDup, H1.
    + intros d Hd. unfold events_handler in *. fields.
      apply set_add_elem in Hd.
      apply write_is_Some, write_is_Some.
      destruct (decide (d = c)) as [->|Hne].
      * apply new_response_held.
      * rewrite new_response_other by exact Hne.
        destruct Hd as [Hd|Hd]; [contradiction | apply H2, Hd].
  - intros s a v H. apply control_cases;
      [exact H | exact H | intros _; apply subscribers_inv_consume; exact H
      | intros x; exact H].
  - intros s H _. unfold accept_pass. apply subscribers_inv_sseSend. exact H.
  - intros s H. unfold reject_pass. apply subscribers_inv_sseSend. exact H.
  - intros s k H. apply fire_cases.
    + exact H.
    + intros ms _. apply subscribers_inv_consume. exact H.
    + intros job _. unfold work_done.
      apply subscribers_inv_consume, subscribers_inv_sseSend. exact H.
  - intros s c [H1 H2]. unfold subscribers_inv, set_delete. fields. split.
    + apply NoDup_filter, H1.
    + intros d Hd. apply list_elem_of_filter in Hd as [_ Hd]. apply H2, Hd.
  - intros s c [H1 H2]. unfold break_conn.
    destruct (conns s !! c) as [k|] eqn:E; [|split; assumption].
    unfold subscribers_inv. fields. split; [exact H1|].
    intros d Hd. destruct (decide (d = c)) as [->|Hne].
    + rewrite lookup_insert_eq. eexists. reflexivity.
    + rewrite lookup_insert_ne by congruence. apply H2, Hd.
  - intros s dt H. exact H.
  - intros s H. unfold sigint.
    assert (subscribers_inv
              (sseSend (Stopped (produced s) (consumed s) (Queue.size (queue s)))
                       (set_running false s))) as [H1 H2].
    { apply subscribers_inv_sseSend. exact H. }
    unfold subscribers_inv. fields. split; [exact H1|].
    intros d Hd. apply ending_is_Some, H2, Hd.
  - vm_compute. split; [constructor|]. intros c Hc.
    apply elem_of_nil in Hc. contradiction.
Qed.

(** X11.  The observer set behaves as a set in every reachable state: it
    holds no response object twice and only objects the program holds, so
    a broadcast writes the event's line exactly once to each subscriber
    that is still writable. *)
Theorem broadcast_once_per_subscriber (cap t0 : Z) (ls : list Label) (e : Event) :
  let s := run (boot cap t0) ls in
  NoDup (subscribers s) /\
  (forall d, d ∈ subscribers s -> is_Some (conns s !! d)) /\
  (forall d r, d ∈ subscribers s ->
     conns s !! d = Some (mkConn true r) ->
     conns (sseSend e s) !! d = Some (mkConn true (r ++ [Data (Live e)]))).
Proof.
  intros s. destruct (subscribers_inv_run cap t0 ls) as [H1 H2].
  fold s in H1, H2. split; [exact H1|]. split; [exact H2|].
  intros d r Hd Hr. unfold sseSend. fields.
  apply fanout_live; assumption.
Qed.

Lemma broadcast_once_per_subscriber_witness :
  let s := run (boot 20 0) [req_events 1; req_events 2; req_events 3; Close 3] in
  NoDup (subscribers s) /\
  conns (sseSend (Backpressure 20) s) !! 2%nat
  = Some (mkConn true ([EventField "init"; Data (Snapshot 0 0 0)]
                       ++ [Data (Live (Backpressure 20))])).
Proof.
  cbn zeta.
  destruct (broadcast_once_per_subscriber 20 0
              [req_events 1; req_events 2; req_events 3; Close 3]
              (Backpressure 20)) as (H1 & _ & H3).
  split; [exact H1|]. apply H3.
  - vm_compute. apply elem_of_cons. right. apply elem_of_cons. left. reflexivity.
  - vm_compute. reflexivity.
Defined.

(** ** Unsubscribing and shutting down *)

Lemma try_end_other m c d : c <> d -> try_end m d !! c = m !! c.
Proof.
  intros Hne. unfold try_end. destruct (m !! d); [|reflexivity].
  apply lookup_insert_ne. congruence.
Qed.

Lemma ending_absent c l : forall m,
  c ∉ l -> foldl try_end m l !! c = m !! c.
Proof.
  induction l as [|d l IH]; intros m H; [reflexivity|].
  apply not_elem_of_cons in H as [Hne Hl].
  cbn [foldl]. rewrite IH by exact Hl. apply try_end_other, Hne.
Qed.

Lemma ending_ended c l : forall m r,
  m !! c = Some (mkConn false r) ->
  foldl try_end m l !! c = Some (mkConn false r).
Proof.
  induction l as [|d l IH]; intros m r H; [exact H|].
  cbn [foldl]. apply IH. destruct (decide (c = d)) as [<-|Hne].
  - unfold try_end. rewrite H. rewrite lookup_insert_eq. reflexivity.
  - rewrite try_end_other by exact Hne. exact H.
Qed.

Lemma ending_member c l : forall m k,
  c ∈ l -> m !! c = Some k ->
  foldl try_end m l !! c = Some (mkConn false (received k)).
Proof.
  induction l as [|d l IH]; intros m k Hin H.
  - apply elem_of_nil in Hin. contradiction.
  - cbn [foldl]. destruct (decide (c = d)) as [<-|Hne].
    + apply ending_ended. unfold try_end. rewrite H.
      apply lookup_insert_eq.
    + apply elem_of_cons in Hin as [Heq|Hin]; [contradiction|].
      apply IH; [exact Hin|]. rewrite try_end_other by exact Hne. exact H.
Qed.

Lemma received_by_same c s s' :
  conns s' !! c = conns s !! c -> received_by c s' = received_by c s.
Proof. unfold received_by. intros ->. reflexivity. Qed.

(** While [c] is not subscribed and no request comes with [c] as its
    response object, a transition keeps [c] unsubscribed and writes nothing
    to it. *)
Lemma unsubscribed_step c s l :
  uses_res c l = false ->
  c ∉ subscribers s ->
  (c ∉ subscribers (step s l)) /\ received_by c (step s l) = received_by c s.
Proof.
  intros Hl Hc.
  assert (Hsend : forall e x,
            c ∉ subscribers x ->
            (c ∉ subscribers (sseSend e x)) /\
            received_by c (sseSend e x) = received_by c x).
  { intros e x Hx. split; [exact Hx|]. apply received_by_same.
    unfold sseSend. fields. apply fanout_absent, Hx. }
  assert (Hcons : forall x,
            c ∉ subscribers x ->
            (c ∉ subscribers (consume x)) /\
            received_by c (consume x) = received_by c x).
  { intros x Hx. pose proof (consume_frame x) as E.
    injection E as _ _ _ _ E5 E6 _ _. rewrite E5. split; [exact Hx|].
    apply received_by_same. rewrite E6. reflexivity. }
  destruct l as [r|k|d|d|dt|]; cbn [step].
  - apply (handle_cases
             (fun x => (c ∉ subscribers x) /\ received_by c x = received_by c s)).
    + split; [exact Hc | reflexivity].
    + cbn [uses_res] in Hl. apply Nat.eqb_neq in Hl. split.
      * unfold events_handler. fields.
        intros Hin. apply set_add_elem in Hin as [Heq|Hin];
          [congruence | contradiction].
      * apply received_by_same. apply events_handler_other. congruence.
    + intros _ _ _. apply control_cases.
      * split; [exact Hc | reflexivity].
      * split; [exact Hc | reflexivity].
      * intros _. destruct (Hcons (set_running true s) Hc) as [H1 H2].
        split; [exact H1 | rewrite H2; reflexivity].
      * intros x. split; [exact Hc | reflexivity].
    + intros n. apply addJobs_preserves.
      * intros x [Hx1 Hx2] _. unfold accept_pass.
        match goal with |- context [sseSend ?e ?y] =>
          destruct (Hsend e y Hx1) as [H1 H2] end.
        split; [exact H1 | rewrite H2; exact Hx2].
      * intros x [Hx1 Hx2]. unfold reject_pass.
        match goal with |- context [sseSend ?e ?y] =>
          destruct (Hsend e y Hx1) as [H1 H2] end.
        split; [exact H1 | rewrite H2; exact Hx2].
      * split; [exact Hc | reflexivity].
  - apply fire_cases.
    + split; [exact Hc | reflexivity].
    + intros ms _.
      destruct (Hcons (set_timers (delete k (timers s)) s) Hc) as [H1 H2].
      split; [exact H1 | rewrite H2; reflexivity].
    + intros job _. unfold work_done.
      match goal with |- context [sseSend ?e ?y] =>
        destruct (Hsend e y Hc) as [H1 H2];
        destruct (Hcons (sseSend e y) H1) as [H3 H4] end.
      split; [exact H3 | rewrite H4, H2; reflexivity].
  - fields. split; [|reflexivity].
    unfold set_delete. intros Hin. apply list_elem_of_filter in Hin as [_ Hin].
    contradiction.
  - split.
    + unfold break_conn. destruct (conns s !! d); exact Hc.
    + unfold break_conn, received_by.
      destruct (conns s !! d) as [k|] eqn:E; [|reflexivity]. fields.
      destruct (decide (c = d)) as [<-|Hne].
      * rewrite lookup_insert_eq, E. reflexivity.
      * rewrite lookup_insert_ne by congruence. reflexivity.
  - split; [exact Hc | reflexivity].
  - unfold sigint.
    match goal with |- context [sseSend ?e ?y] =>
      destruct (Hsend e y Hc) as [H1 H2] end.
    fields. split; [exact H1|]. etransitivity; [|exact H2].
    apply received_by_same. fields. apply ending_absent. exact H1.
Qed.

(** X12.  Once the [close] event of an observer's request has been
    handled, the observer is out of the observer set and nothing is ever
    written to its response object again, whatever the program does (as
    long as no new request is given that same response object). *)
Theorem closed_observer_gets_nothing (s : State) (c : nat) (ls : list Label) :
  forallb (fun l => negb (uses_res c l)) ls = true ->
  let s' := run (step s (Close c)) ls in
  (c ∉ subscribers s') /\ received_by c s' = received_by c s.
Proof.
  intros Hls. cbn zeta.
  assert (H0 : (c ∉ subscribers (step s (Close c))) /\
               received_by c (step s (Close c)) = received_by c s).
  { split; [apply set_delete_gone | reflexivity]. }
  revert H0. generalize (step s (Close c)). revert Hls.
  induction ls as [|l ls IH]; intros Hls x [H1 H2]; [split; assumption|].
  cbn [forallb] in Hls. apply andb_true_iff in Hls as [Hl Hls].
  apply negb_true_iff in Hl. cbn [run foldl].
  destruct (unsubscribed_step c x l Hl H1) as [H3 H4].
  apply (IH Hls). split; [exact H3 | rewrite H4; exact H2].
Qed.

Lemma closed_observer_gets_nothing_witness :
  forallb (fun l => negb (uses_res 1 l))
          [req_enqueue "2"; Fire 0; Advance 90; Fire 0; Sigint] = true /\
  let s := run (boot 20 0) [req_events 1; req_events 2; req_enqueue "1"] in
  let s' := run (step s (Close 1))
              [req_enqueue "2"; Fire 0; Advance 90; Fire 0; Sigint] in
  (1%nat ∉ subscribers s') /\ received_by 1 s' = received_by 1 s.
Proof.
  split; [reflexivity |].
  apply (closed_observer_gets_nothing
           (run (boot 20 0) [req_events 1; req_events 2; req_enqueue "1"])
           1%nat [req_enqueue "2"; Fire 0; Advance 90; Fire 0; Sigint]).
  reflexivity.
Defined.

(** X13.  On SIGINT, in any reachable state: [running] becomes false and
    one [stopped] event carrying the counters and the queue size is
    broadcast; the queue, the counters, the pending timers and the observer
    set are left as they were, so an item in flight still completes.
    Every subscriber that was writable has the [stopped] event as the last
    line of its stream; the stream of every subscriber is ended, and a
    later broadcast delivers nothing to it. *)
Theorem sigint_ends_every_stream (cap t0 : Z) (ls : list Label) :
  let s := run (boot cap t0) ls in
  let stopped := Stopped (produced s) (consumed s) (Queue.size (queue s)) in
  running (sigint s) = false /\
  emitted (sigint s) = emitted s ++ [stopped] /\
  (queue (sigint s), produced (sigint s), consumed (sigint s),
   timers (sigint s), subscribers (sigint s))
  = (queue s, produced s, consumed s, timers s, subscribers s) /\
  (forall d r, d ∈ subscribers s ->
     conns s !! d = Some (mkConn true r) ->
     conns (sigint s) !! d = Some (mkConn false (r ++ [Data (Live stopped)]))) /\
  (forall c, c ∈ subscribers s -> stale c (sigint s) = true) /\
  (forall c e, c ∈ subscribers s ->
     conns (sseSend e (sigint s)) !! c = conns (sigint s) !! c).
Proof.
  intros s stopped.
  destruct (subscribers_inv_run cap t0 ls) as [Hnd Hsome].
  fold s in Hnd, Hsome.
  assert (Hsend : subscribers_inv (sseSend stopped (set_running false s))).
  { apply subscribers_inv_sseSend. split; assumption. }
  destruct Hsend as [_ Hsome'].
  assert (Hended : forall c, c ∈ subscribers s -> stale c (sigint s) = true).
  { intros c Hc. destruct (Hsome' c Hc) as [k Hk].
    unfold stale, conn_open, sigint. fields.
    rewrite (ending_member c _ _ k); [reflexivity | exact Hc | exact Hk]. }
  split; [reflexivity|]. split; [reflexivity|]. split; [reflexivity|].
  split; [|split].
  - intros d r Hd Hr. unfold sigint. fields.
    apply (ending_member d _ _ (mkConn true (r ++ [Data (Live stopped)]))).
    + exact Hd.
    + unfold sseSend. fields. apply fanout_live; assumption.
  - exact Hended.
  - intros c e Hc. unfold sseSend at 1. fields.
    apply fanout_closed. specialize (Hended c Hc).
    unfold stale in Hended. apply negb_true_iff in Hended. exact Hended.
Qed.

Lemma sigint_ends_every_stream_witness :
  let s := run (boot 20 0) [req_events 1; req_enqueue "2"; Fire 0] in
  running (sigint s) = false /\
  timers (sigint s) = [Work (mkJob 1 0)] /\
  conns (sigint s) !! 1%nat
  = Some (mkConn false ([EventField "init"; Data (Snapshot 0 0 0);
                         Data (Live (Queued 1 1)); Data (Live (Queued 2 2))]
                        ++ [Data (Live (Stopped 2 0 1))])) /\
  stale 1 (sigint s) = true /\
  conns (sseSend (Queued 3 2) (sigint s)) !! 1%nat = conns (sigint s) !! 1%nat.
Proof.
  cbn zeta.
  destruct (sigint_ends_every_stream 20 0
              [req_events 1; req_enqueue "2"; Fire 0])
    as (H1 & _ & H3 & H4 & H5 & H6).
  assert (Hin : 1%nat ∈ subscribers
                  (run (boot 20 0) [req_events 1; req_enqueue "2"; Fire 0])).
  { vm_compute. apply elem_of_cons. left. reflexivity. }
  split; [exact H1|]. split; [reflexivity|].
  split; [apply (H4 1%nat); [exact Hin | vm_compute; reflexivity]|].
  split; [apply H5, Hin | apply H6, Hin].
Defined.

(** ** Routing *)

Lemma enqueue_prefix_routes (u : string) :
  String.prefix "/enqueue" u = true ->
  String.eqb u "/events" = false /\ String.prefix "/control" u = false /\
  String.eqb u "/health" = false.
Proof.
  intros H.
  destruct u as [|c0 [|c1 [|c2 u]]]; cbn [String.prefix] in H; try discriminate.
  - destruct (ascii_dec "/" c0); discriminate.
  - destruct (ascii_dec "/" c0); [|discriminate].
    destruct (ascii_dec "e" c1); discriminate.
  - destruct (ascii_dec "/" c0) as [<-|]; [|discriminate].
    destruct (ascii_dec "e" c1) as [<-|]; [|discriminate].
    destruct (ascii_dec "n" c2) as [<-|]; [|discriminate].
    repeat split.
Qed.

(** X14.  [/events] and [/health] are matched exactly and [/enqueue] only
    for GET and POST: a request other than OPTIONS whose URL extends
    [/events] or [/health] by anything (a query string, say), or that
    addresses [/enqueue...] with another method, is answered 404 and
    changes nothing: no observer is registered, nothing is enqueued. *)
Theorem unrouted_request_changes_nothing (r : Request) (s : State) (rest : string) :
  String.eqb (method r) "OPTIONS" = false ->
  (rest <> ""%string /\ (url r = "/events" ++ rest \/ url r = "/health" ++ rest))%string
  \/ (String.prefix "/enqueue" (url r) = true /\
      String.eqb (method r) "GET" = false /\
      String.eqb (method r) "POST" = false) ->
  handle r s = (NotFound404, s).
Proof.
  intros Hopt H. unfold handle. rewrite Hopt.
  destruct H as [[Hrest [Hu|Hu]]|(Hp & Hg & Hpost)].
  - rewrite Hu. destruct rest as [|c rest']; [congruence|]. reflexivity.
  - rewrite Hu. destruct rest as [|c rest']; [congruence|]. reflexivity.
  - destruct (enqueue_prefix_routes _ Hp) as (E1 & E2 & E3).
    rewrite E1, E2, E3, Hp, Hg, Hpost. reflexivity.
Qed.

Lemma unrouted_request_changes_nothing_witness :
  String.eqb (method (mkRequest "PUT" "/enqueue?count=3" [("count", "3")]
                        BodyThrows 0)) "OPTIONS" = false /\
  ((("?x=1" <> "")%string /\
    (url (mkRequest "PUT" "/enqueue?count=3" [("count", "3")] BodyThrows 0)
     = "/events" ++ "?x=1" \/
     url (mkRequest "PUT" "/enqueue?count=3" [("count", "3")] BodyThrows 0)
     = "/health" ++ "?x=1")%string)
   \/ (String.prefix "/enqueue"
         (url (mkRequest "PUT" "/enqueue?count=3" [("count", "3")] BodyThrows 0))
       = true /\
       String.eqb (method (mkRequest "PUT" "/enqueue?count=3" [("count", "3")]
                             BodyThrows 0)) "GET" = false /\
       String.eqb (method (mkRequest "PUT" "/enqueue?count=3" [("count", "3")]
                             BodyThrows 0)) "POST" = false)) /\
  handle (mkRequest "PUT" "/enqueue?count=3" [("count", "3")] BodyThrows 0)
         (boot 20 0)
  = (NotFound404, boot 20 0).
Proof.
  split; [reflexivity |].
  split; [right; repeat split |].
  apply (unrouted_request_changes_nothing
           (mkRequest "PUT" "/enqueue?count=3" [("count", "3")] BodyThrows 0)
           (boot 20 0) "?x=1").
  - reflexivity.
  - right. repeat split.
Defined.

(** ** Counts that are numbers *)

Lemma attempt_made count s :
  js_ge count (Num 1) = true ->
  1 <= r_accepted (addJobs count s).1 + r_rejected (addJobs count s).1.
Proof.
  intros Hge.
  destruct (addJobs_returns count s) as (a & r & s' & Hloop & ->).
  cbn [fst r_accepted r_rejected].
  unfold addJobs_fuel in Hloop.
  rewrite addJobs_loop_first_attempt in Hloop by exact Hge.
  destruct (Queue.size (queue s) >=? Queue.maxSize (queue s)).
  - inversion Hloop; subst. lia.
  - destruct (addJobs_loop_account _ _ _ _ _ _ _ _ _ Hloop)
      as (n & Ha & _ & Hr & _). lia.
Qed.

Lemma sign_cases (t : string) :
  (exists r, t = String "+"%char r) \/ (exists r, t = String "-"%char r) \/
  (match t with
   | String "+"%char r => (false, r)
   | String "-"%char r => (true, r)
   | _ => (false, t)
   end = (false, t) /\
   match t with
   | String "+"%char r => r
   | String "-"%char r => r
   | _ => t
   end = t).
Proof.
  destruct t as [|a t]; [right; right; split; reflexivity|].
  destruct a as [[|] [|] [|] [|] [|] [|] [|] [|]];
    first [ left; eexists; reflexivity
          | right; left; eexists; reflexivity
          | right; right; split; reflexivity ].
Qed.

Lemma all_digits_value body : forall acc,
  all_digits body = true -> exists v, digits_value body acc = Some v.
Proof.
  induction body as [|c body IH]; intros acc H.
  - exists acc. reflexivity.
  - cbn [all_digits] in H. apply andb_true_iff in H as [Hc Hb].
    cbn [digits_value]. rewrite Hc. apply IH, Hb.
Qed.

Lemma all_digits_not_infinity body :
  all_digits body = true -> String.eqb body "Infinity" = false.
Proof.
  destruct body as [|c body]; [reflexivity|].
  cbn [all_digits]. intros H. apply andb_true_iff in H as [Hc _].
  cbn [String.eqb]. destruct (Ascii.eqb_spec c "I") as [->|Hne]; [|reflexivity].
  vm_compute in Hc. discriminate.
Qed.

(** On such a text [Number] gives an integer. *)
Lemma decimal_integer_number (t : string) :
  decimal_integer_text t = true -> exists z, StringToNumber t = Num z.
Proof.
  unfold decimal_integer_text, StringToNumber.
  destruct (String.eqb (trim t) "") eqn:Eempty; [intros _; eexists; reflexivity|].
  cbn [orb]. intros H.
  assert (Hbody : forall (neg : bool) (body : string),
            negb (String.eqb body "") && all_digits body = true ->
            exists z,
              (if String.eqb body "Infinity"
               then (if neg then NegInf else PosInf)
               else if String.eqb body "" then NaN
               else match digits_value body 0 with
                    | Some v => Num (if neg then - v else v)
                    | None => NaN
                    end) = Num z).
  { intros neg body Hb. apply andb_true_iff in Hb as [Hne Hd].
    apply negb_true_iff in Hne.
    rewrite (all_digits_not_infinity body Hd), Hne.
    destruct (all_digits_value body 0 Hd) as [v ->]. eexists. reflexivity. }
  destruct (sign_cases (trim t)) as [[r E]|[[r E]|[E1 E2]]].
  - rewrite E in *. apply (Hbody false r H).
  - rewrite E in *. apply (Hbody true r H).
  - rewrite E1. rewrite E2 in H. apply (Hbody false (trim t) H).
Qed.

Lemma integer_valued_number (v : jsval) :
  integer_valued v = true -> Number (js_or v (VNum (Num 1))) <> NaN.
Proof.
  intros H. unfold js_or.
  destruct (truthy v) eqn:Et; [|cbn [Number]; discriminate].
  destruct v as [| |b|n|t]; cbn [truthy] in Et; try discriminate Et.
  - cbn [Number]. discriminate.
  - destruct n; cbn [Number]; first [discriminate | discriminate Et].
  - cbn [integer_valued] in H. cbn [Number].
    destruct (decimal_integer_number t H) as [z ->]. discriminate.
Qed.

(** X15.  Whenever the [count] of a GET or POST enqueue request is missing,
    empty, a boolean, an integer or an infinity, or a text made of an
    optional sign and decimal digits, the count handed to the batch loop
    is at least 1 and the batch makes at least one attempt: the answer has
    [accepted + rejected >= 1]. *)
Theorem numeric_count_makes_an_attempt
    (r : Request) (s : State) (v : jsval) (count : jsnum) :
  (v = searchParams_get "count" (searchParams r) /\ count = get_count r) \/
  (body r = BodyCount v /\ count = post_count r) ->
  integer_valued v = true ->
  js_ge count (Num 1) = true /\
  1 <= r_accepted (addJobs count s).1 + r_rejected (addJobs count s).1.
Proof.
  intros Hc Hv.
  assert (js_ge count (Num 1) = true) as Hge.
  { pose proof (integer_valued_number v Hv) as Hn.
    destruct Hc as [[-> ->]|[Hb ->]]; unfold get_count, post_count.
    - apply clamp_ge_one, Hn.
    - rewrite Hb. apply clamp_ge_one, Hn. }
  split; [exact Hge | apply attempt_made, Hge].
Qed.

Lemma numeric_count_makes_an_attempt_witness :
  ((VStr " -4 " = searchParams_get "count"
                    (searchParams (GET "/enqueue?count=%20-4%20"
                                       [("count", " -4 ")] 0)) /\
    Num 1 = get_count (GET "/enqueue?count=%20-4%20" [("count", " -4 ")] 0)) \/
   (body (GET "/enqueue?count=%20-4%20" [("count", " -4 ")] 0)
    = BodyCount (VStr " -4 ") /\
    Num 1 = post_count (GET "/enqueue?count=%20-4%20" [("count", " -4 ")] 0))) /\
  integer_valued (VStr " -4 ") = true /\
  js_ge (Num 1) (Num 1) = true /\
  1 <= r_accepted (addJobs (Num 1) (boot 20 0)).1
       + r_rejected (addJobs (Num 1) (boot 20 0)).1.
Proof.
  split; [left; split; reflexivity |]. split; [reflexivity |].
  apply (numeric_count_makes_an_attempt
           (GET "/enqueue?count=%20-4%20" [("count", " -4 ")] 0) (boot 20 0)
           (VStr " -4 ") (Num 1)).
  - left. split; reflexivity.
  - reflexivity.
Defined.

(** ** The plain SSE server *)

Lemma sse_ticks_app l1 l2 :
  SseServer.ticks (l1 ++ l2) = SseServer.ticks l1 ++ SseServer.ticks l2.
Proof.
  induction l1 as [|x l1 IH]; [reflexivity|].
  destruct x; cbn [app SseServer.ticks]; rewrite IH; reflexivity.
Qed.

Lemma sse_ticks_map ns : SseServer.ticks (map SseServer.Tick ns) = ns.
Proof. induction ns as [|n ns IH]; [reflexivity|]. cbn. rewrite IH. reflexivity. Qed.

Lemma sse_shape_ticks counter l n :
  sse_stream_shape counter l -> n ∈ SseServer.ticks l -> 1 <= n <= counter.
Proof.
  intros (ns & -> & _ & Hb) Hn. cbn [SseServer.ticks] in Hn.
  rewrite sse_ticks_map in Hn. rewrite Forall_forall in Hb. apply Hb, Hn.
Qed.

Lemma sse_shape_tick counter l :
  0 <= counter -> sse_stream_shape counter l ->
  sse_stream_shape (counter + 1) (l ++ [SseServer.Tick (counter + 1)]).
Proof.
  intros H0 (ns & -> & Hs & Hb). exists (ns ++ [counter + 1]).
  rewrite map_app. split; [reflexivity|]. split.
  - apply StronglySorted_snoc_bound; assumption.
  - apply Forall_app. split.
    + eapply Forall_impl; [exact Hb|]. cbn. intros; lia.
    + repeat constructor; lia.
Qed.

Lemma sse_shape_weaken counter l :
  sse_stream_shape counter l -> sse_stream_shape (counter + 1) l.
Proof.
  intros (ns & -> & Hs & Hb). exists ns. repeat split; [exact Hs|].
  eapply Forall_impl; [exact Hb|]. cbn. intros; lia.
Qed.

Lemma sse_server_inv_step s l :
  sse_server_inv s -> sse_server_inv (SseServer.step s l).
Proof.
  intros (H0 & Hshape & Hdis). destruct l as [u c|c|c]; cbn [SseServer.step].
  - unfold SseServer.handle. destruct (String.eqb u "/events");
      [|repeat split; assumption].
    cbn [snd]. unfold sse_server_inv.
    cbn [SseServer.counter SseServer.streams].
    split; [exact H0|]. split.
    + intros d l Hl. destruct (decide (c = d)) as [<-|Hne].
      * rewrite lookup_insert_eq in Hl. inversion Hl; subst.
        exists []. repeat split; constructor.
      * rewrite lookup_insert_ne in Hl by exact Hne. apply (Hshape d l Hl).
    + intros c1 c2 l1 l2 n Hne H1 H2 Hn.
      destruct (decide (c = c1)) as [<-|Hn1].
      * rewrite lookup_insert_eq in H1. inversion H1; subst.
        cbn in Hn. apply elem_of_nil in Hn. contradiction.
      * rewrite lookup_insert_ne in H1 by exact Hn1.
        destruct (decide (c = c2)) as [<-|Hn2].
        -- rewrite lookup_insert_eq in H2. inversion H2; subst.
           cbn. apply not_elem_of_nil.
        -- rewrite lookup_insert_ne in H2 by exact Hn2.
           apply (Hdis c1 c2 l1 l2 n Hne H1 H2 Hn).
  - destruct (decide (c ∈ SseServer.intervals s)); [|repeat split; assumption].
    unfold sse_server_inv, SseServer.tick.
    cbn [SseServer.counter SseServer.streams].
    split; [lia|]. split.
    + intros d l Hl. apply lookup_alter_Some in Hl
        as [(<- & x & Hx & ->)|(Hne & Hl)].
      * apply sse_shape_tick; [exact H0 | apply (Hshape c x Hx)].
      * apply sse_shape_weaken, (Hshape d l Hl).
    + intros c1 c2 l1 l2 n Hne H1 H2 Hn.
      apply lookup_alter_Some in H1 as [(<- & x1 & Hx1 & ->)|(Hn1 & H1)];
        apply lookup_alter_Some in H2 as [(E2 & x2 & Hx2 & ->)|(Hn2 & H2)];
        try congruence.
      * rewrite sse_ticks_app in Hn. cbn in Hn.
        apply elem_of_app in Hn as [Hn|Hn].
        -- apply (Hdis c c2 x1 l2 n Hne Hx1 H2 Hn).
        -- apply list_elem_of_singleton in Hn as ->. intros Hin.
           pose proof (sse_shape_ticks _ _ _ (Hshape c2 l2 H2) Hin). lia.
      * subst c2. rewrite sse_ticks_app. cbn. intros Hin.
        apply elem_of_app in Hin as [Hin|Hin].
        -- apply (Hdis c1 c l1 x2 n Hne H1 Hx2 Hn Hin).
        -- apply list_elem_of_singleton in Hin as ->.
           pose proof (sse_shape_ticks _ _ _ (Hshape c1 l1 H1) Hn). lia.
      * apply (Hdis c1 c2 l1 l2 n Hne H1 H2 Hn).
  - repeat split; assumption.
Qed.

Lemma sse_server_inv_run ls : forall s,
  sse_server_inv s -> sse_server_inv (SseServer.run s ls).
Proof.
  induction ls as [|l ls IH]; intros s H; [exact H|].
  cbn [SseServer.run foldl]. apply IH, sse_server_inv_step, H.
Qed.

Lemma sse_server_inv_boot : sse_server_inv SseServer.boot.
Proof.
  unfold sse_server_inv. cbn. split; [lia|].
  split; intros; rewrite lookup_empty in *; discriminate.
Qed.

(** X16.  Whatever requests, interval firings and disconnections the plain
    SSE server has seen, what it has written to a response is the [init]
    event followed by ticks whose numbers strictly increase and lie
    between 1 and the current counter. *)
Theorem sse_server_stream_shape
    (ls : list SseServer.label) (c : nat) (l : list SseServer.chunk) :
  SseServer.streams (SseServer.run SseServer.boot ls) !! c = Some l ->
  exists ns,
    l = SseServer.Init :: map SseServer.Tick ns /\
    StronglySorted Z.lt ns /\
    Forall (fun n => 1 <= n <= SseServer.counter (SseServer.run SseServer.boot ls)) ns.
Proof.
  intros H.
  destruct (sse_server_inv_run ls _ sse_server_inv_boot) as (_ & Hshape & _).
  apply (Hshape c l H).
Qed.

Lemma sse_server_stream_shape_witness :
  SseServer.streams
    (SseServer.run SseServer.boot
       [SseServer.Request "/events" 1; SseServer.Interval 1;
        SseServer.Request "/events" 2; SseServer.Interval 2;
        SseServer.Interval 1]) !! 1%nat
  = Some [SseServer.Init; SseServer.Tick 1; SseServer.Tick 3] /\
  exists ns,
    [SseServer.Init; SseServer.Tick 1; SseServer.Tick 3]
    = SseServer.Init :: map SseServer.Tick ns /\
    StronglySorted Z.lt ns /\
    Forall (fun n => 1 <= n <= SseServer.counter
                      (SseServer.run SseServer.boot
                         [SseServer.Request "/events" 1; SseServer.Interval 1;
                          SseServer.Request "/events" 2; SseServer.Interval 2;
                          SseServer.Interval 1])) ns.
Proof.
  split; [vm_compute; reflexivity |].
  apply (sse_server_stream_shape
           [SseServer.Request "/events" 1; SseServer.Interval 1;
            SseServer.Request "/events" 2; SseServer.Interval 2;
            SseServer.Interval 1] 1%nat).
  vm_compute; reflexivity.
Defined.

(** X17.  The counter of the plain SSE server is shared by all clients:
    a tick number written to one response is never written to another, so
    with several clients connected each of them sees gaps. *)
Theorem sse_server_ticks_not_shared
    (ls : list SseServer.label) (c1 c2 : nat) (n : Z) :
  c1 <> c2 ->
  n ∈ SseServer.ticks (SseServer.stream_of c1 (SseServer.run SseServer.boot ls)) ->
  n ∉ SseServer.ticks (SseServer.stream_of c2 (SseServer.run SseServer.boot ls)).
Proof.
  intros Hne Hn.
  destruct (sse_server_inv_run ls _ sse_server_inv_boot) as (_ & _ & Hdis).
  unfold SseServer.stream_of in *.
  destruct (SseServer.streams (SseServer.run SseServer.boot ls) !! c1)
    as [l1|] eqn:E1; cbn [default] in Hn;
    [|apply elem_of_nil in Hn; contradiction].
  destruct (SseServer.streams (SseServer.run SseServer.boot ls) !! c2)
    as [l2|] eqn:E2; cbn [default]; [|apply not_elem_of_nil].
  apply (Hdis c1 c2 l1 l2 n Hne E1 E2 Hn).
Qed.

Lemma sse_server_ticks_not_shared_witness :
  1%nat <> 2%nat /\
  (1 ∈ SseServer.ticks
         (SseServer.stream_of 1
            (SseServer.run SseServer.boot
               [SseServer.Request "/events" 1; SseServer.Interval 1;
                SseServer.Request "/events" 2; SseServer.Interval 2;
                SseServer.Interval 1]))) /\
  (1 ∉ SseServer.ticks
         (SseServer.stream_of 2
            (SseServer.run SseServer.boot
               [SseServer.Request "/events" 1; SseServer.Interval 1;
                SseServer.Request "/events" 2; SseServer.Interval 2;
                SseServer.Interval 1]))).
Proof.
  split; [lia |].
  split; [vm_compute; apply elem_of_cons; left; reflexivity |].
  apply (sse_server_ticks_not_shared
           [SseServer.Request "/events" 1; SseServer.Interval 1;
            SseServer.Request "/events" 2; SseServer.Interval 2;
            SseServer.Interval 1] 1%nat 2%nat 1).
  - lia.
  - vm_compute. apply elem_of_cons. left. reflexivity.
Defined.

Lemma sse_closed_step c s l :
  SseServer.mentions c l = false ->
  c ∉ SseServer.intervals s ->
  (c ∉ SseServer.intervals (SseServer.step s l)) /\
  SseServer.streams (SseServer.step s l) !! c = SseServer.streams s !! c.
Proof.
  intros Hl Hc. destruct l as [u d|d|d]; cbn [SseServer.step].
  - unfold SseServer.handle. destruct (String.eqb u "/events");
      [|split; [exact Hc | reflexivity]].
    cbn [snd SseServer.intervals SseServer.streams].
    cbn [SseServer.mentions] in Hl. apply Nat.eqb_neq in Hl. split.
    + intros Hin. apply elem_of_app in Hin as [Hin|Hin]; [contradiction|].
      apply list_elem_of_singleton in Hin. congruence.
    + apply lookup_insert_ne. exact Hl.
  - destruct (decide (d ∈ SseServer.intervals s)) as [Hd|Hd];
      [|split; [exact Hc | reflexivity]].
    unfold SseServer.tick. cbn [SseServer.intervals SseServer.streams].
    split; [exact Hc|]. apply lookup_alter_ne. intros ->. contradiction.
  - unfold SseServer.close. cbn [SseServer.intervals SseServer.streams].
    split; [|reflexivity]. intros Hin.
    apply list_elem_of_filter in Hin as [_ Hin]. contradiction.
Qed.

(** X18.  Once the [close] event of a request has cleared its interval,
    the plain SSE server writes nothing more to that response and its
    interval stays cleared, however many other intervals fire (as long as
    no new request is given that same response object). *)
Theorem sse_server_closed_stream_is_final
    (s : SseServer.t) (c : nat) (ls : list SseServer.label) :
  forallb (fun l => negb (SseServer.mentions c l)) ls = true ->
  let s' := SseServer.run (SseServer.step s (SseServer.Closed c)) ls in
  (c ∉ SseServer.intervals s') /\
  SseServer.stream_of c s' = SseServer.stream_of c s.
Proof.
  intros Hls. cbn zeta.
  assert (H0 : (c ∉ SseServer.intervals (SseServer.step s (SseServer.Closed c))) /\
               SseServer.streams (SseServer.step s (SseServer.Closed c)) !! c
               = SseServer.streams s !! c).
  { cbn [SseServer.step]. unfold SseServer.close.
    cbn [SseServer.intervals SseServer.streams]. split; [|reflexivity].
    intros Hin. apply list_elem_of_filter in Hin as [Hne _]. congruence. }
  revert H0. generalize (SseServer.step s (SseServer.Closed c)). revert Hls.
  induction ls as [|l ls IH]; intros Hls x [H1 H2].
  - split; [exact H1|]. unfold SseServer.stream_of. cbn. rewrite H2. reflexivity.
  - cbn [forallb] in Hls. apply andb_true_iff in Hls as [Hl Hls].
    apply negb_true_iff in Hl. cbn [SseServer.run foldl].
    destruct (sse_closed_step c x l Hl H1) as [H3 H4].
    apply (IH Hls). split; [exact H3 | rewrite H4; exact H2].
Qed.

Lemma sse_server_closed_stream_is_final_witness :
  forallb (fun l => negb (SseServer.mentions 1 l))
          [SseServer.Interval 1; SseServer.Interval 2;
           SseServer.Request "/events" 3; SseServer.Interval 1] = true /\
  let s := SseServer.run SseServer.boot
             [SseServer.Request "/events" 1; SseServer.Request "/events" 2;
              SseServer.Interval 1] in
  let s' := SseServer.run (SseServer.step s (SseServer.Closed 1))
              [SseServer.Interval 1; SseServer.Interval 2;
               SseServer.Request "/events" 3; SseServer.Interval 1] in
  (1%nat ∉ SseServer.intervals s') /\
  SseServer.stream_of 1 s' = SseServer.stream_of 1 s.
Proof.
  split; [reflexivity |].
  apply (sse_server_closed_stream_is_final
           (SseServer.run SseServer.boot
              [SseServer.Request "/events" 1; SseServer.Request "/events" 2;
               SseServer.Interval 1])
           1%nat
           [SseServer.Interval 1; SseServer.Interval 2;
            SseServer.Request "/events" 3; SseServer.Interval 1]).
  reflexivity.
Defined.

(** ** Latencies *)

Lemma latencies_app l1 l2 : latencies (l1 ++ l2) = latencies l1 ++ latencies l2.
Proof.
  induction l1 as [|e l1 IH]; [reflexivity|].
  destruct e; cbn [app latencies]; rewrite IH; reflexivity.
Qed.

Lemma timestamps_consume s : timestamps_inv s -> timestamps_inv (consume s).
Proof.
  intros (H1 & H2 & H3). apply consume_cases.
  - intros _. repeat split; assumption.
  - intros j rest _ E. unfold timestamps_inv. fields. cbn [Queue.items].
    rewrite E in H1. apply Forall_cons in H1 as [Hj Hrest].
    split; [exact Hrest|]. split; [|exact H3].
    apply Forall_app. split; [exact H2|]. repeat constructor. exact Hj.
  - intros _ _. unfold timestamps_inv. fields.
    split; [exact H1|]. split; [|exact H3].
    apply Forall_app. split; [exact H2|]. repeat constructor.
Qed.

Lemma timestamps_step s l :
  match l with Advance dt => 0 <=? dt | _ => true end = true ->
  timestamps_inv s -> timestamps_inv (step s l).
Proof.
  intros Hl Hinv. destruct l as [r|k|c|c|dt|]; cbn [step].
  - apply handle_cases.
    + exact Hinv.
    + exact Hinv.
    + intros _ _ _. apply control_cases;
        [exact Hinv | exact Hinv
        | intros _; apply timestamps_consume; exact Hinv
        | intros x; exact Hinv].
    + intros n. apply addJobs_preserves; [| |exact Hinv].
      * intros x (H1 & H2 & H3) Hroom. unfold timestamps_inv.
        destruct (accept_pass_effect x Hroom) as (Ei & _ & _). rewrite Ei.
        unfold accept_pass, sseSend. fields.
        rewrite latencies_app. cbn [latencies]. rewrite app_nil_r.
        split; [|split; assumption].
        apply Forall_app. split; [exact H1|]. repeat constructor. cbn. lia.
      * intros x (H1 & H2 & H3).
        unfold timestamps_inv, reject_pass, sseSend in *. fields.
        rewrite latencies_app. cbn [latencies]. rewrite app_nil_r.
        repeat split; assumption.
  - destruct Hinv as (H1 & H2 & H3). apply fire_cases.
    + repeat split; assumption.
    + intros ms _. apply timestamps_consume. unfold timestamps_inv. fields.
      split; [exact H1|]. split; [|exact H3]. apply Forall_delete, H2.
    + intros job E. unfold work_done. apply timestamps_consume.
      unfold timestamps_inv, sseSend. fields.
      rewrite latencies_app. cbn [latencies].
      split; [exact H1|]. split; [apply Forall_delete, H2|].
      apply Forall_app. split; [exact H3|]. repeat constructor.
      rewrite Forall_forall in H2.
      specialize (H2 (Work job) (list_elem_of_lookup_2 _ _ _ E)).
      cbn in H2. lia.
  - exact Hinv.
  - unfold break_conn. destruct (conns s !! c); exact Hinv.
  - apply Z.leb_le in Hl. destruct Hinv as (H1 & H2 & H3).
    unfold timestamps_inv. fields. split; [|split; [|exact H3]].
    + eapply Forall_impl; [exact H1|]. cbn. intros; lia.
    + eapply Forall_impl; [exact H2|]. intros [j|ms]; cbn; [lia | tauto].
  - destruct Hinv as (H1 & H2 & H3).
    unfold timestamps_inv, sigint, sseSend in *. fields.
    rewrite latencies_app. cbn [latencies]. rewrite app_nil_r.
    repeat split; assumption.
Qed.

(** X19.  If the clock read by [Date.now()] never goes back, no
    [processed] event ever announces a negative latency: an item is
    stamped when it is accepted and completed later. *)
Theorem latency_never_negative (cap t0 : Z) (ls : list Label) :
  clock_monotone ls = true ->
  Forall (fun x => 0 <= x) (latencies (emitted (run (boot cap t0) ls))).
Proof.
  intros Hls.
  assert (H : timestamps_inv (run (boot cap t0) ls)).
  { assert (H0 : timestamps_inv (boot cap t0)).
    { vm_compute. repeat split; repeat constructor. }
    revert H0. generalize (boot cap t0). revert Hls.
    unfold clock_monotone.
    induction ls as [|l ls IH]; intros Hls s H; [exact H|].
    cbn [forallb] in Hls. apply andb_true_iff in Hls as [Hl Hls].
    cbn [run foldl]. apply (IH Hls). apply timestamps_step; assumption. }
  destruct H as (_ & _ & H). exact H.
Qed.

Lemma latency_never_negative_witness :
  clock_monotone [req_enqueue "2"; Advance 10; Fire 0; Advance 120; Fire 0;
                  Advance 75; Fire 0] = true /\
  Forall (fun x => 0 <= x)
         (latencies (emitted (run (boot 20 0)
                                [req_enqueue "2"; Advance 10; Fire 0;
                                 Advance 120; Fire 0; Advance 75; Fire 0]))).
Proof.
  split; [reflexivity |].
  apply (latency_never_negative 20 0
           [req_enqueue "2"; Advance 10; Fire 0; Advance 120; Fire 0;
            Advance 75; Fire 0]).
  reflexivity.
Defined.
